(** * server/ingest.py: the ingestion script, embedded and verified

    A shallow embedding of [src/server/ingest.py]: the filename
    classifier, the fixed-window chunker, the pipe-delimited and
    markdown-argument extractors, the per-kind ingest routines and the
    batch loop of [main].

    Python strings are sequences of Unicode code points; they are
    modelled as lists of [N].  Python integers are [Z]. *)

From Stdlib Require Import String Ascii.
From Stdlib Require Import List NArith ZArith Lia Bool.
Import ListNotations.

(** ** Strings *)

Definition char := N.
Bind Scope N_scope with char.
Definition str := list char.

(** A literal written in the ASCII range. *)
Definition py (s : string) : str := map N_of_ascii (list_ascii_of_string s).

Definition len (s : str) : Z := Z.of_nat (length s).

Definition nonempty (s : str) : bool :=
  match s with [] => false | _ :: _ => true end.

Fixpoint str_eqb (a b : str) : bool :=
  match a, b with
  | [], [] => true
  | x :: a', y :: b' => N.eqb x y && str_eqb a' b'
  | _, _ => false
  end.

(** [str.isspace] on one code point, the set that [str.strip()] with no
    argument removes and that [\s] matches in a [str] pattern. *)
Definition isspace (c : char) : bool :=
  ((9 <=? c) && (c <=? 13) || (28 <=? c) && (c <=? 32)
   || (c =? 133) || (c =? 160) || (c =? 5760)
   || (8192 <=? c) && (c <=? 8202)
   || (c =? 8232) || (c =? 8233) || (c =? 8239) || (c =? 8287)
   || (c =? 12288))%N.

Fixpoint lstrip (s : str) : str :=
  match s with
  | c :: s' => if isspace c then lstrip s' else s
  | [] => []
  end.

Definition rstrip (s : str) : str := rev (lstrip (rev s)).

Definition strip (s : str) : str := rstrip (lstrip s).

(** [s[start:stop]] for integer bounds: a negative bound counts from
    the end, and both are clamped to the string. *)
Definition slice_index (n i : Z) : Z :=
  if (i <? 0)%Z then Z.max 0 (i + n) else Z.min i n.

Definition py_slice (s : str) (start stop : Z) : str :=
  let lo := slice_index (len s) start in
  let hi := slice_index (len s) stop in
  firstn (Z.to_nat (hi - lo)) (skipn (Z.to_nat lo) s).

(** ** chunk_text *)

Definition CHUNK_SIZE : Z := 1000.
Definition CHUNK_OVERLAP : Z := 100.

(** The [while start < len(text)] loop.  Nothing in the source bounds
    the number of iterations, so the model takes fuel and answers
    [None] when it runs out. *)
Fixpoint chunk_loop (fuel : nat) (text : str) (chunk_size overlap : Z)
         (start : Z) (chunks : list str) : option (list str) :=
  match fuel with
  | O => None
  | S fuel' =>
      if (start <? len text)%Z then
        let end_ := (start + chunk_size)%Z in
        let chunk := py_slice text start end_ in
        chunk_loop fuel' text chunk_size overlap (end_ - overlap)%Z
                   (chunks ++ [strip chunk])
      else Some chunks
  end.

Definition chunk_text (fuel : nat) (text : str) (chunk_size overlap : Z)
  : option (list str) :=
  option_map (filter nonempty) (chunk_loop fuel text chunk_size overlap 0 []).

(** The windows the chunker is specified to visit: window [i] starts
    at [i * (size - overlap)], for as long as that is inside the text. *)
Definition ceil_div (a b : Z) : Z := ((a + b - 1) / b)%Z.

Definition window_count (n size overlap : Z) : nat :=
  Z.to_nat (ceil_div n (size - overlap)).

Definition window_starts (n size overlap : Z) : list Z :=
  map (fun i => (Z.of_nat i * (size - overlap))%Z)
      (seq 0 (window_count n size overlap)).

Definition window (text : str) (size start : Z) : str :=
  py_slice text start (start + size).

(** Iterations the loop still has to run when its variable holds
    [start]. *)
Definition iterations_left (text : str) (size overlap start : Z) : nat :=
  Z.to_nat (ceil_div (len text - start) (size - overlap)).

Definition sample_text_2500 : str := repeat 97%N 2500.

(** ** [str] methods used by the script *)

(** [s.startswith(p)], returning what follows the prefix. *)
Fixpoint strip_prefix (p s : str) : option str :=
  match p, s with
  | [], _ => Some s
  | x :: p', y :: s' => if N.eqb x y then strip_prefix p' s' else None
  | _ :: _, [] => None
  end.

(** [s.partition(sep)] when [sep] occurs: the text before the first
    occurrence and the text after it. *)
Fixpoint partition (sep s : str) : option (str * str) :=
  match strip_prefix sep s with
  | Some rest => Some ([], rest)
  | None =>
      match s with
      | [] => None
      | c :: s' =>
          match partition sep s' with
          | Some (a, b) => Some (c :: a, b)
          | None => None
          end
      end
  end.

(** [sep in s] *)
Definition contains (sep s : str) : bool :=
  match partition sep s with Some _ => true | None => false end.

(** [s.split(sep)] for a non-empty [sep].  Every cut consumes at least
    one character, so [length s] rounds are enough. *)
Fixpoint split_rounds (n : nat) (sep s : str) : list str :=
  match n with
  | O => [s]
  | S n' =>
      match partition sep s with
      | Some (a, rest) => a :: split_rounds n' sep rest
      | None => [s]
      end
  end.

Definition split (sep s : str) : list str := split_rounds (length s) sep s.

(** [s.split(sep, 1)] *)
Definition split1 (sep s : str) : list str :=
  match partition sep s with
  | Some (a, b) => [a; b]
  | None => [s]
  end.

(** [s.rsplit(sep, 1)]: the cut is at the last occurrence. *)
Definition rsplit1 (sep s : str) : list str :=
  match partition (rev sep) (rev s) with
  | Some (b, a) => [rev a; rev b]
  | None => [s]
  end.

(** [parts[i]] for an index known to be in range. *)
Definition item (parts : list str) (i : nat) : str := nth i parts [].

(** [x or d] for a value that is [None] or a string: the default is
    taken when [x] is [None] or empty. *)
Definition py_or (x : option str) (d : str) : str :=
  match x with
  | Some (c :: s) => c :: s
  | _ => d
  end.

(** What the interpreter brings: the tables of the Unicode database it
    consults, and its limit on the number of digits [int] converts.
    They are not part of the script; the development is parametric in
    them. *)
Class Unicode := {
  isalnum : char -> bool;        (* [str.isalnum] on one code point *)
  isdecimal : char -> bool;      (* [str.isdecimal], what [\d] matches *)
  isdigit : char -> bool;        (* [str.isdigit] on one code point *)
  decimal_value : char -> Z;     (* the value [int] gives a decimal digit *)
  lower : str -> str;            (* [str.lower] *)
  max_str_digits : nat           (* [sys.get_int_max_str_digits()]: 4300
                                    unless configured, 0 for no limit *)
}.

(** ** Exceptions *)

Inductive exn :=
| ValueError (about : str)         (* raised by [parse_filename], about the
                                      filename, and by [int], about the
                                      digits *)
| ReadError (filename : str)       (* [open]/[read] failed *)
| PermissionError (filename : str) (* [os.remove] was refused *)
| DatabaseError                    (* raised by the driver *).

Inductive result (A : Type) :=
| Ok (a : A)
| Raise (e : exn).
Arguments Ok {A} a.
Arguments Raise {A} e.

(** ** Filename classification *)

Inductive file_type := Positions | Quotes | Works | Arguments | Chunks.

Definition NL : str := [10%N].
Definition DOT : str := py ".".
Definition UNDERSCORE : str := py "_".
Definition DELIM : str := py " | ".

Section Classifier.
Context `{Unicode}.

Definition parse_filename (filename : str) : result str :=
  let name := item (rsplit1 DOT filename) 0 in
  if negb (contains UNDERSCORE name) then Raise (ValueError filename)
  else
    let parts := split1 UNDERSCORE name in
    let thinker := lower (item parts 0) in
    Ok thinker.

Definition get_file_type (filename : str) : file_type :=
  let lower := lower filename in
  if contains (py "_positions_") lower then Positions
  else if contains (py "_quotes_") lower then Quotes
  else if contains (py "_works_") lower then Works
  else if contains (py "_arguments_") lower then Arguments
  else Chunks.
End Classifier.

(** ** extract_pipe_delimited *)

Record entry := {
  thinker : str;
  content : str;
  topic : option str
}.

(** One round of [for line in lines], from the list of entries so far
    to the list after the round. *)
Definition pipe_line (entries : list entry) (line : str) : list entry :=
  let line := strip line in
  if negb (nonempty line) || negb (contains DELIM line) then entries
  else
    let parts := split DELIM line in
    if (2 <=? length parts)%nat then
      let thinker := strip (item parts 0) in
      let content := strip (item parts 1) in
      let topic := if (3 <=? length parts)%nat
                   then Some (strip (item parts 2)) else None in
      entries ++ [ {| thinker := thinker; content := content; topic := topic |} ]
    else entries.

Definition extract_pipe_delimited (text : str) : list entry :=
  let lines := split NL text in
  fold_left pipe_line lines [].

(** [e.get('thinker') or thinker_from_filename] on such an entry. *)
Definition entry_thinker (e : entry) (thinker_from_filename : str) : str :=
  py_or (Some (thinker e)) thinker_from_filename.

(** ** The words of the specification, for comparison *)

(** The text before, and after, the first occurrence of a character
    (all of it, and nothing, when there is none). *)
Fixpoint before_first (c : char) (s : str) : str :=
  match s with
  | [] => []
  | x :: s' => if N.eqb x c then [] else x :: before_first c s'
  end.

Fixpoint after_first (c : char) (s : str) : str :=
  match s with
  | [] => []
  | x :: s' => if N.eqb x c then s' else after_first c s'
  end.

(** A filename without its extension: what precedes the last dot. *)
Definition remove_extension (filename : str) : str :=
  if existsb (N.eqb 46) filename
  then rev (after_first 46 (rev filename))
  else filename.

(** A table with no code point outside the Basic Latin block: letters
    and digits are the ASCII ones and [lower] maps [A-Z] to [a-z]; the
    limit of [int] is the default one.  It agrees with the interpreter
    on texts written in ASCII, which is where the examples below run
    it. *)
Definition ascii_lower (c : char) : char :=
  if ((65 <=? c) && (c <=? 90))%N then (c + 32)%N else c.

Definition ascii_isdecimal (c : char) : bool := ((48 <=? c) && (c <=? 57))%N.

Definition ascii_isalnum (c : char) : bool :=
  (ascii_isdecimal c || (65 <=? c) && (c <=? 90) || (97 <=? c) && (c <=? 122))%N.

Definition basic_latin : Unicode := {|
  isalnum := ascii_isalnum;
  isdecimal := ascii_isdecimal;
  isdigit := ascii_isdecimal;
  decimal_value := fun c => (Z.of_N c - 48)%Z;
  lower := map ascii_lower;
  max_str_digits := 4300
|}.

(** ** Regular expressions

    The patterns of the script, as syntax trees, and a backtracking
    matcher for them with the priorities of Python's [re]: the left
    branch of an alternation first, a greedy repetition from the
    longest run down, a lazy one from the shortest run up.  Every
    repetition in the script is over a single character set, and every
    pattern has one capturing group. *)

Inductive charset :=
| Lit (c : char)        (* the character itself *)
| AnyButNewline         (* [.] *)
| AnyChar               (* [.] under [re.DOTALL] *)
| Space                 (* [\s] *)
| Digit                 (* [\d] *)
| Word                  (* [\w] *)
| Except (c : char).    (* [[^c]] *)

Inductive regex :=
| Empty
| One (cs : charset)
| Seq (r1 r2 : regex)
| Alt (r1 r2 : regex)                              (* [r1|r2] *)
| Repeat (cs : charset) (least : nat) (greedy : bool)
                                   (* [cs*], [cs+], [cs*?], [cs+?] *)
| Group (r : regex)                                (* [(r)] *)
| BolMultiline                     (* [^] under [re.MULTILINE] *)
| Eol                              (* [$] *)
| EolMultiline.                    (* [$] under [re.MULTILINE] *)

Fixpoint lit (s : str) : regex :=
  match s with
  | [] => Empty
  | c :: s' => Seq (One (Lit c)) (lit s')
  end.

Fixpoint seq_all (rs : list regex) : regex :=
  match rs with
  | [] => Empty
  | r :: rs' => Seq r (seq_all rs')
  end.

Definition star cs := Repeat cs 0 true.
Definition plus cs := Repeat cs 1 true.
Definition lazy_star cs := Repeat cs 0 false.
Definition lazy_plus cs := Repeat cs 1 false.

Definition orelse {R} (a b : option R) : option R :=
  match a with Some x => Some x | None => b end.

Section Regex.
Context `{Unicode}.

Definition in_charset (cs : charset) (c : char) : bool :=
  match cs with
  | Lit x => N.eqb c x
  | AnyButNewline => negb (N.eqb c 10)
  | AnyChar => true
  | Space => isspace c
  | Digit => isdecimal c
  | Word => isalnum c || N.eqb c 95
  | Except x => negb (N.eqb c x)
  end.

(** The matcher runs over the text that remains, [s], and remembers
    the character before it, [prev] ([None] at the start of the
    subject), which is what the anchors look at.  It passes the
    position reached and the text of the group to the continuation
    [k], and a [None] from [k] makes it backtrack. *)
Definition continuation (R : Type) : Type :=
  option char -> str -> option str -> option R.

Fixpoint repeat_greedy {R} (cs : charset) (least : nat)
         (prev : option char) (s : str)
         (k : option char -> str -> option R) : option R :=
  let stop := match least with O => k prev s | S _ => None end in
  match s with
  | c :: s' =>
      if in_charset cs c
      then orelse (repeat_greedy cs (pred least) (Some c) s' k) stop
      else stop
  | [] => stop
  end.

Fixpoint repeat_lazy {R} (cs : charset) (least : nat)
         (prev : option char) (s : str)
         (k : option char -> str -> option R) : option R :=
  let stop := match least with O => k prev s | S _ => None end in
  orelse stop
    match s with
    | c :: s' =>
        if in_charset cs c
        then repeat_lazy cs (pred least) (Some c) s' k
        else None
    | [] => None
    end.

Fixpoint rmatch {R} (r : regex) (prev : option char) (s : str)
         (cap : option str) (k : continuation R) : option R :=
  match r with
  | Empty => k prev s cap
  | One cs =>
      match s with
      | c :: s' => if in_charset cs c then k (Some c) s' cap else None
      | [] => None
      end
  | Seq r1 r2 =>
      rmatch r1 prev s cap (fun prev' s' cap' => rmatch r2 prev' s' cap' k)
  | Alt r1 r2 =>
      orelse (rmatch r1 prev s cap k) (rmatch r2 prev s cap k)
  | Repeat cs least greedy =>
      (if greedy then repeat_greedy else repeat_lazy)
        cs least prev s (fun prev' s' => k prev' s' cap)
  | Group r1 =>
      rmatch r1 prev s cap
        (fun prev' s' _ =>
           k prev' s' (Some (firstn (length s - length s') s)))
  | BolMultiline =>
      match prev with
      | None => k prev s cap
      | Some c => if N.eqb c 10 then k prev s cap else None
      end
  | Eol =>
      match s with
      | [] => k prev s cap
      | [c] => if N.eqb c 10 then k prev s cap else None
      | _ => None
      end
  | EolMultiline =>
      match s with
      | [] => k prev s cap
      | c :: _ => if N.eqb c 10 then k prev s cap else None
      end
  end.

(** A match found by scanning: the text skipped before it, its
    group, and the position after it. *)
Record found := {
  skipped : str;
  group1 : option str;
  prev_after : option char;
  after : str
}.

Definition match_here (r : regex) (prev : option char) (s : str)
  : option found :=
  rmatch r prev s None
    (fun prev' s' cap =>
       Some {| skipped := []; group1 := cap;
               prev_after := prev'; after := s' |}).

(** The leftmost match at or after the current position. *)
Fixpoint scan (r : regex) (prev : option char) (s : str) : option found :=
  match match_here r prev s with
  | Some m => Some m
  | None =>
      match s with
      | [] => None
      | c :: s' =>
          match scan r (Some c) s' with
          | Some m =>
              Some {| skipped := c :: skipped m; group1 := group1 m;
                      prev_after := prev_after m; after := after m |}
          | None => None
          end
      end
  end.

(** [re.search(r, s)] *)
Definition re_search (r : regex) (s : str) : option found := scan r None s.

(** [m.group(1)] of a match whose group took part in it. *)
Definition group (m : found) : str :=
  match group1 m with Some g => g | None => [] end.

(** [re.findall(r, s)] and [re.split(r, s)] for a pattern with one
    group that cannot match the empty string: each match consumes a
    character, so [length s] rounds find them all. *)
Fixpoint findall_rounds (n : nat) (r : regex) (prev : option char) (s : str)
  : list str :=
  match n with
  | O => []
  | S n' =>
      match scan r prev s with
      | Some m => group m :: findall_rounds n' r (prev_after m) (after m)
      | None => []
      end
  end.

Definition re_findall (r : regex) (s : str) : list str :=
  findall_rounds (length s) r None s.

Fixpoint split_matches (n : nat) (r : regex) (prev : option char) (s : str)
  : list str :=
  match n with
  | O => [s]
  | S n' =>
      match scan r prev s with
      | Some m =>
          skipped m :: group m :: split_matches n' r (prev_after m) (after m)
      | None => [s]
      end
  end.

Definition re_split (r : regex) (s : str) : list str :=
  split_matches (length s) r None s.
End Regex.

(** [→], U+2192 *)
Definition ARROW : char := 8594.

(** [r'###\s*Argument\s+\d+\s*\(([^)]+)\)'] *)
Definition HEADER_RE : regex :=
  seq_all [lit (py "###"); star Space; lit (py "Argument"); plus Space;
           plus Digit; star Space; lit (py "(");
           Group (plus (Except 41)); lit (py ")")].

(** [r'\*\*Author:\*\*\s*(\w+)'] *)
Definition AUTHOR_RE : regex :=
  seq_all [lit (py "**Author:**"); star Space; Group (plus Word)].

(** [r'\*\*Premises:\*\*(.*?)(?:\*\*→|$)'] with [re.DOTALL] *)
Definition PREMISES_RE : regex :=
  seq_all [lit (py "**Premises:**"); Group (lazy_star AnyChar);
           Alt (lit (py "**" ++ [ARROW])) Eol].

(** [r'^-\s*(.+)$'] with [re.MULTILINE] *)
Definition PREMISE_LINE_RE : regex :=
  seq_all [BolMultiline; lit (py "-"); star Space;
           Group (plus AnyButNewline); EolMultiline].

(** [r'\*\*→\s*Conclusion:\*\*\s*(.+?)(?:\n\n|\*Source|$)'] with
    [re.DOTALL] *)
Definition CONCLUSION_RE : regex :=
  seq_all [lit (py "**" ++ [ARROW]); star Space; lit (py "Conclusion:**");
           star Space; Group (lazy_plus AnyChar);
           Alt (lit (NL ++ NL)) (Alt (lit (py "*Source")) Eol)].

(** [r'\*Source:\s*([^|]+)'] *)
Definition SOURCE_RE : regex :=
  seq_all [lit (py "*Source:"); star Space; Group (plus (Except 124))].

(** [r'Importance:\s*(\d+)/10'] *)
Definition IMPORTANCE_RE : regex :=
  seq_all [lit (py "Importance:"); star Space; Group (plus Digit);
           lit (py "/10")].

(** ** extract_arguments *)

(** An entry of [extract_arguments].  The source stores the premises
    as [json.dumps(premises)], the JSON text of the list; the model
    keeps the list. *)
Record argument := {
  arg_thinker : option str;
  argument_type : str;
  premises : list str;
  conclusion : str;
  arg_topic : option str;
  importance : Z
}.

Section Arguments.
Context `{Unicode}.

(** [int(s)] on a run of decimal digits.  The interpreter refuses a
    run longer than its limit, when it has one, with a [ValueError]. *)
Definition int (s : str) : result Z :=
  if (0 <? max_str_digits)%nat && (max_str_digits <? length s)%nat
  then Raise (ValueError s)
  else Ok (fold_left (fun n c => (10 * n + decimal_value c)%Z) s 0%Z).

(** The parts of the loop body, one per extracted field. *)
Definition block_thinker (block : str) : option str :=
  let author_match := re_search AUTHOR_RE block in
  match author_match with
  | Some m => Some (lower (group m))
  | None => None
  end.

Definition block_premises (block : str) : list str :=
  let premises_section := re_search PREMISES_RE block in
  match premises_section with
  | Some m =>
      let premise_lines := re_findall PREMISE_LINE_RE (group m) in
      map strip (filter (fun p => nonempty (strip p)) premise_lines)
  | None => []
  end.

Definition block_conclusion (block : str) : str :=
  let conclusion_match := re_search CONCLUSION_RE block in
  match conclusion_match with
  | Some m => strip (group m)
  | None => []
  end.

Definition block_topic (block : str) : option str :=
  let source_match := re_search SOURCE_RE block in
  match source_match with
  | Some m => Some (strip (group m))
  | None => None
  end.

Definition block_importance (block : str) : result Z :=
  let importance_match := re_search IMPORTANCE_RE block in
  match importance_match with
  | Some m => int (group m)
  | None => Ok 5%Z
  end.

(** One round of the [while] loop on the pair
    [argument_blocks[i], argument_blocks[i + 1]].  The importance is
    computed, and [int] may raise, before the test on the premises and
    the conclusion. *)
Definition argument_round (entries : list argument) (type block : str)
  : result (list argument) :=
  let argument_type := lower (strip type) in
  let thinker := block_thinker block in
  let premises := block_premises block in
  let conclusion := block_conclusion block in
  let topic := block_topic block in
  match block_importance block with
  | Raise e => Raise e
  | Ok importance =>
      Ok (if (match premises with [] => false | _ :: _ => true end)
             && nonempty conclusion
          then entries ++ [ {| arg_thinker := thinker;
                               argument_type := argument_type;
                               premises := premises;
                               conclusion := conclusion;
                               arg_topic := topic;
                               importance := importance |} ]
          else entries)
  end.

(** The loop [i = 1; while i < len(argument_blocks) - 1: ...; i += 2]
    over what remains of the list from index [i] on. *)
Fixpoint argument_loop (from_i : list str) (entries : list argument)
  : result (list argument) :=
  match from_i with
  | type :: block :: rest =>
      match argument_round entries type block with
      | Raise e => Raise e
      | Ok entries' => argument_loop rest entries'
      end
  | _ => Ok entries
  end.

Definition extract_arguments (text : str) : result (list argument) :=
  let argument_blocks := re_split HEADER_RE text in
  argument_loop (tl argument_blocks) [].
End Arguments.

(** The format of the docstring of [extract_arguments], as a text. *)
Definition sample_arguments : str :=
  py "intro" ++ NL ++
  py "### Argument 1 (deductive)" ++ NL ++
  py "**Author:** Kant" ++ NL ++
  py "**Premises:**" ++ NL ++
  py "- premise 1" ++ NL ++
  py "- premise 2" ++ NL ++
  py "**" ++ [ARROW] ++ py " Conclusion:** conclusion text" ++ NL ++
  py "*Source: ethics | Importance: 7/10*" ++ NL.

(** A block with no author and no importance, and a block with no
    premise. *)
Definition sample_anonymous : str :=
  py "### Argument 12 (Inductive)" ++ NL ++
  py "**Premises:**" ++ NL ++
  py "- the sun rose yesterday" ++ NL ++
  py "**" ++ [ARROW] ++ py " Conclusion:** the sun rises" ++ NL ++ NL ++
  py "### Argument 13 (abductive)" ++ NL ++
  py "**Author:** Hume" ++ NL ++
  py "**Premises:**" ++ NL ++
  py "**" ++ [ARROW] ++ py " Conclusion:** nothing follows" ++ NL.

(** The (type, body) pairs of a list [type; body; type; body; ...]. *)
Fixpoint pairs (l : list str) : list (str * str) :=
  match l with
  | type :: block :: rest => (type, block) :: pairs rest
  | _ => []
  end.

(** ** The database, the ingest folder and the console

    The script works on three things outside it: the database behind
    [conn], the files of [INGEST_FOLDER], and standard output.  The
    model keeps them in one state and records what was done to them,
    in order, in a trace. *)

Inductive table :=
| tbl_positions | tbl_quotes | tbl_arguments | tbl_text_chunks | tbl_texts.

(** A value bound to a [%s] of an [INSERT]. *)
Inductive value :=
| Null                     (* [None] *)
| Text (s : str)
| Int (z : Z)
| Json (l : list str)      (* [json.dumps] of a list of strings *)
| Time (t : nat).          (* a reading of [datetime.now()] *)

Definition row := list value.

Definition opt_text (x : option str) : value :=
  match x with Some s => Text s | None => Null end.

(** The bytes of a file are either valid UTF-8, and then decode to
    [text] however the file is opened, or not: then reading them
    raises, unless the file was opened with [errors='ignore'], which
    reads what is left without the offending bytes. *)
Inductive file_content :=
| Valid (text : str)
| Invalid (ignoring : str).

Inductive decoding := Strict | IgnoreErrors.

(** The lines the script prints. *)
Inductive line :=
| Processing (kind : file_type) (filename : str)
| ThinkerFromFilename (t : str)
| ThinkerIs (t : str)
| SourceIs (s : str)
| TitleIs (s : str)
| ContentLength (n : nat)
| Found (kind : file_type) (n : nat)
| Inserted (kind : file_type) (n : nat)
| InsertedWork (title : str)
| Deleted (filename : str)
| Error (e : exn)
| Blank
| NoFilesFound
| FoundFiles (n : nat)
| Done.

Inductive event :=
| Print (l : line)
| Execute (t : table) (r : row)     (* an [INSERT] the database took *)
| Commit                            (* [conn.commit()] returned *)
| Rollback                          (* [conn.rollback()] *)
| Remove (filename : str).          (* [os.remove] returned *)

Record world := {
  files : list (str * file_content);   (* the folder, in listing order *)
  protected : list str;                (* the names [os.remove] refuses *)
  committed : list (table * row);      (* the rows of the database *)
  pending : list (table * row);        (* the open transaction *)
  clock : nat;
  trace : list event
}.

(** What the database refuses.  The schema and the server are not
    part of the script; an [INSERT] or a [COMMIT] that the database
    refuses raises in the driver. *)
Class Database := {
  accepts : table -> row -> bool;
  commits : list (table * row) -> bool
}.

(** Computations that read and change the state and may raise.  What
    was done before an exception stays done. *)
Definition M (A : Type) : Type := world -> result A * world.

Definition ret {A} (a : A) : M A := fun w => (Ok a, w).

Definition bind {A B} (m : M A) (k : A -> M B) : M B :=
  fun w =>
    match m w with
    | (Ok a, w') => k a w'
    | (Raise e, w') => (Raise e, w')
    end.

Declare Scope py_scope.
Delimit Scope py_scope with py.
Notation "x <- m ;; k" := (bind m (fun x => k))
  (at level 100, m at next level, right associativity) : py_scope.
Notation "m ;; k" := (bind m (fun _ => k))
  (at level 100, right associativity) : py_scope.
Open Scope py_scope.

Definition lift {A} (r : result A) : M A := fun w => (r, w).

(** [try: m  except Exception as e: h e] *)
Definition try_except {A} (m : M A) (h : exn -> M A) : M A :=
  fun w =>
    match m w with
    | (Ok a, w') => (Ok a, w')
    | (Raise e, w') => h e w'
    end.

Fixpoint for_each {A} (l : list A) (body : A -> M unit) : M unit :=
  match l with
  | [] => ret tt
  | x :: l' => body x ;; for_each l' body
  end.

Definition record (ev : event) (w : world) : world :=
  {| files := files w; protected := protected w; committed := committed w;
     pending := pending w; clock := clock w; trace := trace w ++ [ev] |}.

Definition print (l : line) : M unit := fun w => (Ok tt, record (Print l) w).

Fixpoint lookup (filename : str) (dir : list (str * file_content))
  : option file_content :=
  match dir with
  | [] => None
  | (name, c) :: dir' =>
      if str_eqb name filename then Some c else lookup filename dir'
  end.

Definition unlink (filename : str) (dir : list (str * file_content))
  : list (str * file_content) :=
  filter (fun f => negb (str_eqb (fst f) filename)) dir.

(** [os.listdir(INGEST_FOLDER)] *)
Definition listdir : M (list str) := fun w => (Ok (map fst (files w)), w).

(** [with open(filepath, 'r', ...) as f: text = f.read()] *)
Definition read_file (d : decoding) (filename : str) : M str :=
  fun w =>
    match lookup filename (files w), d with
    | Some (Valid text), _ => (Ok text, w)
    | Some (Invalid text), IgnoreErrors => (Ok text, w)
    | Some (Invalid _), Strict => (Raise (ReadError filename), w)
    | None, _ => (Raise (ReadError filename), w)
    end.

(** [os.remove(filepath)]: it raises when the file is not there, and
    when the folder does not let the process remove it. *)
Definition remove (filename : str) : M unit :=
  fun w =>
    match lookup filename (files w) with
    | Some _ =>
        if existsb (str_eqb filename) (protected w)
        then (Raise (PermissionError filename), w)
        else
          (Ok tt,
           record (Remove filename)
             {| files := unlink filename (files w);
                protected := protected w; committed := committed w;
                pending := pending w; clock := clock w; trace := trace w |})
    | None => (Raise (ReadError filename), w)
    end.

(** [datetime.now()] *)
Definition now : M nat :=
  fun w =>
    (Ok (clock w),
     {| files := files w; protected := protected w;
        committed := committed w; pending := pending w;
        clock := S (clock w); trace := trace w |}).

Section Connection.
Context `{Database}.

(** [cursor.execute("INSERT INTO t (...) VALUES (...)", r)] *)
Definition execute (t : table) (r : row) : M unit :=
  fun w =>
    if accepts t r then
      (Ok tt,
       record (Execute t r)
         {| files := files w; protected := protected w;
            committed := committed w;
            pending := pending w ++ [(t, r)]; clock := clock w;
            trace := trace w |})
    else (Raise DatabaseError, w).

(** [conn.commit()] *)
Definition commit : M unit :=
  fun w =>
    if commits (pending w) then
      (Ok tt,
       record Commit
         {| files := files w; protected := protected w;
            committed := committed w ++ pending w;
            pending := []; clock := clock w; trace := trace w |})
    else (Raise DatabaseError, w).

(** [conn.rollback()] *)
Definition rollback : M unit :=
  fun w =>
    (Ok tt,
     record Rollback
       {| files := files w; protected := protected w;
          committed := committed w; pending := [];
          clock := clock w; trace := trace w |}).
End Connection.

(** [sep.join(parts)] *)
Fixpoint join (sep : str) (parts : list str) : str :=
  match parts with
  | [] => []
  | [p] => p
  | p :: parts' => p ++ sep ++ join sep parts'
  end.

(** ** The ingest routines

    A file is named by its entry in the folder: [filepath] is
    [INGEST_FOLDER/filename] and [os.path.basename] gives [filename]
    back.  [cursor.close()] does nothing to the state. *)

Section Ingest.
Context `{Unicode} `{Database}.

Definition ingest_positions_file (filename : str) : M unit :=
  print (Processing Positions filename) ;;
  thinker_from_filename <- lift (parse_filename filename) ;;
  print (ThinkerFromFilename thinker_from_filename) ;;
  text <- read_file Strict filename ;;
  let entries := extract_pipe_delimited text in
  print (Found Positions (length entries)) ;;
  for_each entries (fun e =>
    let thinker := entry_thinker e thinker_from_filename in
    t <- now ;;
    execute tbl_positions
      [Text thinker; Text (content e); opt_text (topic e); Time t]) ;;
  commit ;;
  print (Inserted Positions (length entries)) ;;
  remove filename ;;
  print (Deleted filename).

Definition ingest_quotes_file (filename : str) : M unit :=
  print (Processing Quotes filename) ;;
  thinker_from_filename <- lift (parse_filename filename) ;;
  print (ThinkerFromFilename thinker_from_filename) ;;
  text <- read_file Strict filename ;;
  let entries := extract_pipe_delimited text in
  print (Found Quotes (length entries)) ;;
  for_each entries (fun e =>
    let thinker := entry_thinker e thinker_from_filename in
    t <- now ;;
    execute tbl_quotes
      [Text thinker; Text (content e); opt_text (topic e); Time t]) ;;
  commit ;;
  print (Inserted Quotes (length entries)) ;;
  remove filename ;;
  print (Deleted filename).

(** [e.get('thinker') or thinker_from_filename] on an entry of
    [extract_arguments]. *)
Definition argument_thinker (e : argument) (thinker_from_filename : str)
  : str :=
  py_or (arg_thinker e) thinker_from_filename.

Definition ingest_arguments_file (filename : str) : M unit :=
  print (Processing Arguments filename) ;;
  thinker_from_filename <- lift (parse_filename filename) ;;
  print (ThinkerFromFilename thinker_from_filename) ;;
  text <- read_file Strict filename ;;
  entries <- lift (extract_arguments text) ;;
  print (Found Arguments (length entries)) ;;
  for_each entries (fun e =>
    let thinker := argument_thinker e thinker_from_filename in
    t <- now ;;
    execute tbl_arguments
      [Text thinker; Text (argument_type e); Json (premises e);
       Text (conclusion e); opt_text (arg_topic e); Int (importance e);
       Time t]) ;;
  commit ;;
  print (Inserted Arguments (length entries)) ;;
  remove filename ;;
  print (Deleted filename).

(** [chunk_text(text)]: the default parameters, for which this
    fuel is enough (lemma [chunk_text_runs]). *)
Definition chunk_text_default (text : str) : list str :=
  match chunk_text (S (length text)) text CHUNK_SIZE CHUNK_OVERLAP with
  | Some chunks => chunks
  | None => []
  end.

Definition ingest_chunks_file (filename : str) : M unit :=
  print (Processing Chunks filename) ;;
  thinker <- lift (parse_filename filename) ;;
  let name := item (rsplit1 DOT filename) 0 in
  let parts := split1 UNDERSCORE name in
  let source_file := if (1 <? length parts)%nat then item parts 1 else name in
  print (ThinkerIs thinker) ;;
  print (SourceIs source_file) ;;
  text <- read_file IgnoreErrors filename ;;
  let chunks := chunk_text_default text in
  print (Found Chunks (length chunks)) ;;
  for_each (combine (seq 0 (length chunks)) chunks) (fun ic =>
    let '(index, chunk_text_content) := ic in
    t <- now ;;
    execute tbl_text_chunks
      [Text thinker; Text source_file; Text chunk_text_content;
       Int (Z.of_nat index); Time t]) ;;
  commit ;;
  print (Inserted Chunks (length chunks)) ;;
  remove filename ;;
  print (Deleted filename).

(** [p.isdigit()] *)
Definition str_isdigit (p : str) : bool := nonempty p && forallb isdigit p.

Definition ingest_works_file (filename : str) : M unit :=
  print (Processing Works filename) ;;
  thinker <- lift (parse_filename filename) ;;
  let name := item (rsplit1 DOT filename) 0 in
  let parts := split UNDERSCORE name in
  let title_parts := filter (fun p => negb (str_isdigit p)) (skipn 2 parts) in
  let title := match title_parts with
               | [] => name
               | _ :: _ => join (py " ") title_parts
               end in
  print (ThinkerIs thinker) ;;
  print (TitleIs title) ;;
  content <- read_file IgnoreErrors filename ;;
  print (ContentLength (length content)) ;;
  t <- now ;;
  execute tbl_texts
    [Text thinker; Text title; Text filename; Text content; Time t] ;;
  commit ;;
  print (InsertedWork title) ;;
  remove filename ;;
  print (Deleted filename).

Definition ingest_file (filename : str) : M unit :=
  let file_type := get_file_type filename in
  match file_type with
  | Positions => ingest_positions_file filename
  | Quotes => ingest_quotes_file filename
  | Works => ingest_works_file filename
  | Arguments => ingest_arguments_file filename
  | Chunks => ingest_chunks_file filename
  end.

(** One round of [for filename in files] in [main]. *)
Definition process_file (filename : str) : M unit :=
  try_except
    (ingest_file filename ;;
     print Blank)
    (fun e =>
       print (Error e) ;;
       rollback ;;
       print Blank).

(** [main], once the folder exists and [get_db_connection] has
    returned the connection. *)
Definition main : M unit :=
  entries <- listdir ;;
  let files := filter (contains UNDERSCORE) entries in
  match files with
  | [] => print NoFilesFound
  | _ :: _ =>
      print (FoundFiles (length files)) ;;
      for_each files process_file ;;
      print Done
  end.
End Ingest.

(** ** A run

    A database that refuses rows whose first column is the text
    [spinoza], and a folder of three files. *)
Definition refuses_spinoza : Database := {|
  accepts := fun _ r =>
    match r with
    | Text s :: _ => negb (str_eqb s (py "spinoza"))
    | _ => true
    end;
  commits := fun _ => true
|}.

Definition empty_world (dir : list (str * file_content)) : world :=
  {| files := dir; protected := []; committed := []; pending := [];
     clock := 0; trace := [] |}.


Definition sample_folder : list (str * file_content) :=
  [ (py "baruch_quotes_1.txt",
     Valid (py "hume | custom is the great guide" ++ NL ++
            py "spinoza | all things excellent are difficult | ethics"));
    (py "kant_positions_1.txt",
     Valid (py "immanuel | duty is categorical | ethics"));
    (py "notes.txt", Valid (py "no underscore in this name")) ].

Definition anonymous_folder : list (str * file_content) :=
  [ (py "Hume_arguments_3.md", Valid sample_anonymous) ].

Definition chunks_folder : list (str * file_content) :=
  [ (py "kant_notes_2.txt", Valid (py "  the starry heavens above me  ")) ].

(** ** Vocabulary for the traces *)

Definition is_print (ev : event) : bool :=
  match ev with Print _ => true | _ => false end.

(** Events that touch neither the committed rows nor the folder. *)
Definition quiet (ev : event) : bool :=
  match ev with Print _ | Execute _ _ => true | _ => false end.

(** The rows inserted by a run of events. *)
Definition executed (evs : list event) : list (table * row) :=
  flat_map (fun ev => match ev with Execute t r => [(t, r)] | _ => [] end) evs.

(** A step that only prints and inserts into the open transaction. *)
Definition quiet_step {A} (m : M A) : Prop :=
  forall w,
    files (snd (m w)) = files w /\
    protected (snd (m w)) = protected w /\
    committed (snd (m w)) = committed w /\
    exists evs,
      trace (snd (m w)) = trace w ++ evs /\
      forallb quiet evs = true /\
      pending (snd (m w)) = pending w ++ executed evs.

(** What processing one file may do, from [w] to [w'] with result [r].
    Either it returns, having printed and inserted, then committed,
    then removed the file, in this order.  Or it raises before the
    commit, having only printed and inserted.  Or the commit was made
    and [os.remove] raised: the rows are committed and the file is
    still there. *)
Definition file_post (filename : str) (w : world) (r : result unit)
           (w' : world) : Prop :=
  exists evs,
    trace w' = trace w ++ evs /\
    protected w' = protected w /\
    match r with
    | Ok _ =>
        exists before mid after,
          evs = before ++ Commit :: mid ++ Remove filename :: after /\
          forallb quiet before = true /\
          forallb is_print mid = true /\
          forallb is_print after = true /\
          committed w' = committed w ++ pending w ++ executed before /\
          pending w' = [] /\
          files w' = unlink filename (files w) /\
          existsb (str_eqb filename) (protected w) = false
    | Raise e =>
        (forallb quiet evs = true /\
         committed w' = committed w /\
         files w' = files w /\
         pending w' = pending w ++ executed evs) \/
        (e = PermissionError filename /\
         existsb (str_eqb filename) (protected w) = true /\
         exists before mid,
           evs = before ++ Commit :: mid /\
           forallb quiet before = true /\
           forallb is_print mid = true /\
           committed w' = committed w ++ pending w ++ executed before /\
           pending w' = [] /\
           files w' = files w)
    end.

Definition file_spec (present : bool) (filename : str) (m : M unit) : Prop :=
  forall w,
    (present = true -> lookup filename (files w) <> None) ->
    file_post filename w (fst (m w)) (snd (m w)).

(** Every event of a computation satisfies [Q]. *)
Definition emits {A} (Q : event -> Prop) (m : M A) : Prop :=
  forall w, exists evs, trace (snd (m w)) = trace w ++ evs /\ Forall Q evs.

(** The values bound by the [INSERT] of [ingest_arguments_file] for
    the entry [e], at time [t]. *)
Definition argument_row (thinker_from_filename : str) (e : argument) (t : nat)
  : row :=
  [Text (py_or (arg_thinker e) thinker_from_filename);
   Text (argument_type e); Json (premises e); Text (conclusion e);
   opt_text (arg_topic e); Int (importance e); Time t].

(** [enumerate(l)] *)
Definition enumerate {A} (l : list A) : list (nat * A) :=
  combine (seq 0 (length l)) l.

(** An event that is not an insert, or is an insert into
    [text_chunks] with [src] in the column [source_file]. *)
Definition stores_source (src : str) (ev : event) : Prop :=
  match ev with
  | Execute t r => t = tbl_text_chunks /\ nth 1 r Null = Text src
  | _ => True
  end.

Definition not_insert (ev : event) : Prop :=
  match ev with Execute _ _ => False | _ => True end.

(** The shape of the insert loops: for each item, read the clock and
    insert the row made of the item and the reading. *)
Definition insert_all `{Database} {A} (tbl : table) (mk : A -> nat -> row)
           (l : list A) : M unit :=
  for_each l (fun x => t <- now ;; execute tbl (mk x t)).

(** The rows such a loop inserts when it starts at time [t0]. *)
Definition rows_from {A} (tbl : table) (mk : A -> nat -> row) (t0 : nat)
           (l : list A) : list (table * row) :=
  map (fun ix => (tbl, mk (snd ix) (t0 + fst ix))) (enumerate l).

(** ** Further vocabulary *)

(** The fields of [s] between occurrences of the character [c], by
    recursion on [s]. *)
Fixpoint fields (c : char) (s : str) : list str :=
  match s with
  | [] => [[]]
  | x :: s' =>
      if N.eqb x c then [] :: fields c s'
      else match fields c s' with
           | f :: fs => (x :: f) :: fs
           | [] => [[x]]
           end
  end.

(** The values bound by the [INSERT] of [ingest_positions_file] and of
    [ingest_quotes_file] for the entry [e], at time [t]. *)
Definition pipe_row (thinker_from_filename : str) (e : entry) (t : nat) : row :=
  [Text (entry_thinker e thinker_from_filename); Text (content e);
   opt_text (topic e); Time t].

(** The title [ingest_works_file] derives from the filename. *)
Definition works_title `{Unicode} (filename : str) : str :=
  let name := item (rsplit1 DOT filename) 0 in
  let parts := split UNDERSCORE name in
  let title_parts := filter (fun p => negb (str_isdigit p)) (skipn 2 parts) in
  match title_parts with
  | [] => name
  | _ :: _ => join (py " ") title_parts
  end.


(** The values bound by the [INSERT] of [ingest_chunks_file] for the
    pair [(index, chunk)] of [enumerate(chunks)]. *)
Definition chunk_row (thinker source_file : str) (ic : nat * str) (t : nat)
  : row :=
  [Text thinker; Text source_file; Text (snd ic); Int (Z.of_nat (fst ic));
   Time t].

(** The kinds of file that are opened without [errors='ignore']. *)
Definition read_strictly (kind : file_type) : bool :=
  match kind with
  | Positions | Quotes | Arguments => true
  | Works | Chunks => false
  end.

(** [s] occurs in [text] as a run of consecutive characters. *)
Definition substring (s text : str) : Prop :=
  exists before after, text = before ++ s ++ after.

(** The table [ingest_positions_file] and [ingest_quotes_file] insert
    into. *)
Definition pipe_table (kind : file_type) : table :=
  match kind with
  | Quotes => tbl_quotes
  | _ => tbl_positions
  end.

(** What [f.read()] returns for a file opened with [errors='ignore']. *)
Definition decoded (c : file_content) : str :=
  match c with
  | Valid text => text
  | Invalid ignoring => ignoring
  end.


(** The names [main] keeps from the listing. *)
Definition candidates (w : world) : list str :=
  filter (contains UNDERSCORE) (map fst (files w)).

(** From [w] to [w'] rows were only added to the database and files
    only removed from the folder, none of them a file without an
    underscore in its name. *)
Definition only_ingested (w w' : world) : Prop :=
  (exists rows, committed w' = committed w ++ rows) /\
  (forall f, In f (files w') -> In f (files w)) /\
  (forall name : str, ~ In 95%N name ->
                lookup name (files w') = lookup name (files w)).

(** The entries of an extraction that returned; none when it raised. *)
Definition entries_of {A} (r : result (list A)) : list A :=
  match r with
  | Ok l => l
  | Raise _ => []
  end.



(** ** The premises and the conclusion of a block, in the words of the
    specification

    "The span between a [**Premises:**] marker and the next [**→]
    marker (or end of block); within that span, every line beginning
    with [-] contributes one premise after trimming; empty trimmed
    lines are excluded."  "Text following [**→ Conclusion:**] up to a
    double-newline or a [*Source] marker or end of block, trimmed." *)
Definition before_marker (marker s : str) : str :=
  match partition marker s with
  | Some (a, _) => a
  | None => s
  end.

Definition after_marker (marker s : str) : option str :=
  match partition marker s with
  | Some (_, b) => Some b
  | None => None
  end.

Definition begins_with_dash (l : str) : bool :=
  match l with
  | c :: _ => N.eqb c 45
  | [] => false
  end.

Definition spec_premises (block : str) : list str :=
  match after_marker (py "**Premises:**") block with
  | None => []
  | Some rest =>
      let span := before_marker (py "**" ++ [ARROW]) rest in
      filter nonempty
        (map (fun l => strip (tl l))
             (filter begins_with_dash (split NL span)))
  end.

Definition spec_conclusion (block : str) : str :=
  match after_marker (py "**" ++ [ARROW] ++ py " Conclusion:**") block with
  | None => []
  | Some rest =>
      strip (before_marker (NL ++ NL) (before_marker (py "*Source") rest))
  end.

(** A block whose conclusion is blank, a block whose only dash stands
    alone on its line, and a block whose importance has 4301 digits. *)
Definition blank_conclusion : str :=
  py "### Argument 1 (deductive)" ++ NL ++
  py "**Premises:**" ++ NL ++
  py "- all men are mortal" ++ NL ++
  py "**" ++ [ARROW] ++ py " Conclusion:** " ++ NL ++
  py "*Source: logic | Importance: 7/10*".

Definition bare_dash : str :=
  py "### Argument 1 (deductive)" ++ NL ++
  py "**Premises:**" ++ NL ++
  py "-" ++ NL ++
  py "to be written" ++ NL ++
  py "**" ++ [ARROW] ++ py " Conclusion:** nothing yet" ++ NL.

Definition long_importance : str :=
  py "### Argument 1 (deductive)" ++ NL ++
  py "**Premises:**" ++ NL ++
  py "- all men are mortal" ++ NL ++
  py "**" ++ [ARROW] ++ py " Conclusion:** Socrates is mortal" ++ NL ++
  py "*Source: logic | Importance: " ++ repeat 49%N 4301 ++ py "/10*".

(** * Theorems *)
(** ** The chunker *)

Section ChunkLoop.
Variable text : str.
Variables size overlap : Z.
Hypothesis step_pos : (overlap < size)%Z.

Local Open Scope Z_scope.

Local Abbreviation step := (size - overlap).

Lemma iterations_left_done start :
  len text <= start -> iterations_left text size overlap start = 0%nat.
Proof.
  intros Hge. unfold iterations_left, ceil_div.
  assert (Hq : (len text - start + step - 1) / step <= 0).
  { apply Z.lt_succ_r. apply Z.div_lt_upper_bound; lia. }
  lia.
Qed.

Lemma iterations_left_step start :
  start < len text ->
  iterations_left text size overlap start = S (iterations_left text size overlap (start + step)).
Proof.
  intros Hlt. unfold iterations_left, ceil_div.
  replace (len text - start + step - 1)
    with ((len text - (start + step) + step - 1) + 1 * step) by ring.
  rewrite Z.div_add by (lia).
  assert (0 <= (len text - (start + step) + step - 1) / step).
  { apply Z.div_pos; lia. }
  lia.
Qed.

(** With fuel for every remaining iteration the loop returns, and it
    has appended one stripped window per iteration. *)
Lemma chunk_loop_runs :
  forall n fuel start chunks,
    iterations_left text size overlap start = n ->
    (n < fuel)%nat ->
    chunk_loop fuel text size overlap start chunks =
    Some (chunks ++
          map (fun i => strip (window text size (start + Z.of_nat i * step)))
              (seq 0 n)).
Proof.
  induction n as [|n IH]; intros fuel start chunks Hn Hfuel.
  - destruct fuel as [|fuel]; [lia|]. simpl.
    destruct (Z.ltb_spec start (len text)) as [Hlt|Hge].
    + rewrite iterations_left_step in Hn by assumption. discriminate.
    + now rewrite app_nil_r.
  - destruct fuel as [|fuel]; [lia|]. simpl chunk_loop.
    destruct (Z.ltb_spec start (len text)) as [Hlt|Hge].
    + rewrite iterations_left_step in Hn by assumption.
      injection Hn as Hn.
      replace (start + size - overlap) with (start + step)
        by ring.
      rewrite (IH fuel (start + step)) by (assumption || lia).
      rewrite <- app_assoc. do 2 f_equal. unfold window.
      cbn [seq map app]. f_equal.
      * do 2 f_equal; lia.
      * rewrite <- seq_shift, map_map. apply map_ext. intros i.
        do 2 f_equal; lia.
    + rewrite iterations_left_done in Hn by assumption. discriminate.
Qed.

Lemma iterations_left_0 :
  iterations_left text size overlap 0 = window_count (len text) size overlap.
Proof.
  unfold iterations_left, window_count. now rewrite Z.sub_0_r.
Qed.

Lemma chunk_text_runs fuel :
  (window_count (len text) size overlap < fuel)%nat ->
  chunk_text fuel text size overlap =
  Some (filter nonempty
          (map (fun start => strip (window text size start))
               (window_starts (len text) size overlap))).
Proof.
  intros Hfuel. unfold chunk_text.
  rewrite (chunk_loop_runs (window_count (len text) size overlap))
    by (assumption || apply iterations_left_0).
  simpl. unfold window_starts. rewrite map_map. reflexivity.
Qed.

Lemma window_count_le_len :
  (window_count (len text) size overlap <= length text)%nat.
Proof.
  unfold window_count, ceil_div, len.
  assert ((Z.of_nat (length text) + step - 1) / step
          <= Z.of_nat (length text)); [|lia].
  destruct (length text) as [|n].
  - simpl. apply Z.lt_succ_r.
    apply Z.div_lt_upper_bound; lia.
  - apply Z.lt_succ_r.
    apply Z.div_lt_upper_bound; [lia|nia].
Qed.

(** The visited starts are exactly the multiples of the step that
    lie inside the text, in increasing order. *)
Lemma window_starts_nth n i s :
  nth_error (window_starts n size overlap) i = Some s <->
  s = Z.of_nat i * step /\ s < n.
Proof.
  unfold window_starts, window_count, ceil_div.
  set (c := Z.to_nat ((n + step - 1) / step)).
  assert (Hc : (i < c)%nat <-> Z.of_nat i * step < n).
  { subst c. split; intros H.
    - assert (Z.of_nat i + 1 <= (n + step - 1) / step) by lia.
      assert (step * (Z.of_nat i + 1) <= n + step - 1); [|lia].
      etransitivity; [apply Z.mul_le_mono_nonneg_l; [lia|eassumption]|].
      apply Z.mul_div_le. lia.
    - assert (Z.of_nat i + 1 <= (n + step - 1) / step); [|lia].
      apply Z.div_le_lower_bound; lia. }
  split.
  - intros H. rewrite nth_error_map, nth_error_seq in H.
    destruct (Nat.ltb_spec i c); [|discriminate]. simpl in H.
    injection H as <-. split; [reflexivity|]. now apply Hc.
  - intros [-> Hs]. apply Hc in Hs.
    rewrite nth_error_map, nth_error_seq.
    destruct (Nat.ltb_spec i c); [|lia]. reflexivity.
Qed.
End ChunkLoop.

Lemma filter_length_le {A} (f : A -> bool) (l : list A) :
  (length (filter f l) <= length l)%nat.
Proof.
  induction l as [|x l IH]; simpl; [lia|]. destruct (f x); simpl; lia.
Qed.

(** C7: whenever [overlap < size], [chunk_text] returns (the fuel
    [len(text) + 1] is always enough, and more fuel changes nothing),
    each iteration moves [start] forward by [size - overlap], and the
    number of chunks produced is at most
    [ceil(len(text) / (size - overlap))]. *)
Theorem chunk_text_terminates_bounded :
  forall (text : str) (size overlap : Z),
    (overlap < size)%Z ->
    (forall fuel start chunks,
        (start < len text)%Z ->
        chunk_loop (S fuel) text size overlap start chunks =
        chunk_loop fuel text size overlap (start + (size - overlap))%Z
                   (chunks ++ [strip (py_slice text start (start + size))])) /\
    forall fuel, (length text < fuel)%nat ->
      exists chunks,
        chunk_text fuel text size overlap = Some chunks /\
        (Z.of_nat (length chunks) <= ceil_div (len text) (size - overlap))%Z.
Proof.
  intros text size overlap Hlt. split.
  - intros fuel start chunks Hs. simpl.
    apply Z.ltb_lt in Hs. rewrite Hs. f_equal. ring.
  - intros fuel Hfuel.
    pose proof (window_count_le_len text size overlap Hlt) as Hle.
    eexists. split.
    + apply chunk_text_runs; [assumption|lia].
    + etransitivity.
      * apply inj_le. apply filter_length_le.
      * rewrite length_map. unfold window_starts.
        rewrite length_map, length_seq. unfold window_count.
        assert (0 <= ceil_div (len text) (size - overlap))%Z; [|lia].
        unfold ceil_div. apply Z.div_pos; unfold len; lia.
Qed.

Lemma chunk_text_terminates_bounded_witness :
  (1 < 4)%Z /\
  exists chunks,
    chunk_text 12 (py "hello world") 4 1 = Some chunks /\
    (Z.of_nat (length chunks) <= ceil_div (len (py "hello world")) (4 - 1))%Z.
Proof.
  split; [lia|].
  apply (proj2 (chunk_text_terminates_bounded (py "hello world") 4 1
                  ltac:(lia)) 12%nat).
  simpl. lia.
Defined.

(** C6: with the default parameters (size 1000, overlap 100) the
    chunker returns the stripped windows that start at the offsets
    [i * 900], [i = 0, 1, 2, ...], as long as the offset is less than
    the length of the text, without those that are empty once stripped;
    for a text of 2500 characters the offsets are 0, 900 and 1800. *)
Theorem chunk_text_default_windows :
  forall text : str,
    let starts := window_starts (len text) CHUNK_SIZE CHUNK_OVERLAP in
    (forall fuel, (length text < fuel)%nat ->
       chunk_text fuel text CHUNK_SIZE CHUNK_OVERLAP =
       Some (filter nonempty
               (map (fun start => strip (py_slice text start (start + 1000)))
                    starts))) /\
    (forall i s, nth_error starts i = Some s <->
                 s = (Z.of_nat i * (1000 - 100))%Z /\ (s < len text)%Z) /\
    (length text = 2500%nat -> starts = [0; 900; 1800]%Z).
Proof.
  intros text starts. subst starts. split; [|split].
  - intros fuel Hfuel.
    pose proof (window_count_le_len text 1000 100 ltac:(lia)).
    rewrite chunk_text_runs; try reflexivity;
      unfold CHUNK_SIZE, CHUNK_OVERLAP; lia.
  - intros i s. apply window_starts_nth. unfold CHUNK_SIZE, CHUNK_OVERLAP. lia.
  - intros H. unfold len. rewrite H. reflexivity.
Qed.

Lemma chunk_text_default_windows_witness :
  length sample_text_2500 = 2500%nat /\
  window_starts (len sample_text_2500) CHUNK_SIZE CHUNK_OVERLAP
  = [0; 900; 1800]%Z.
Proof.
  assert (H : length sample_text_2500 = 2500%nat) by apply repeat_length.
  split; [exact H|].
  exact (proj2 (proj2 (chunk_text_default_windows sample_text_2500)) H).
Defined.

(** ** String methods *)

Lemma partition_char_None c s :
  ~ In c s -> partition [c] s = None.
Proof.
  induction s as [|x s IH]; intros Hn; [reflexivity|].
  simpl. destruct (N.eqb_spec c x) as [->|Hne].
  - exfalso. apply Hn. now left.
  - rewrite IH; [reflexivity|]. intros Hin. apply Hn. now right.
Qed.

Lemma partition_char_Some c s :
  In c s -> partition [c] s = Some (before_first c s, after_first c s).
Proof.
  induction s as [|x s IH]; intros Hin; [destruct Hin|].
  simpl. rewrite (N.eqb_sym x c). destruct (N.eqb_spec c x) as [->|Hne].
  - reflexivity.
  - rewrite IH; [reflexivity|]. destruct Hin; congruence.
Qed.

Lemma In_dec_char (c : char) (s : str) : {In c s} + {~ In c s}.
Proof. apply in_dec, N.eq_dec. Qed.

Lemma contains_char c s : contains [c] s = true <-> In c s.
Proof.
  unfold contains. destruct (In_dec_char c s) as [Hin|Hn].
  - rewrite partition_char_Some by assumption. tauto.
  - rewrite partition_char_None by assumption. split; [discriminate|tauto].
Qed.

Lemma existsb_eqb_In c s : existsb (N.eqb c) s = true <-> In c s.
Proof.
  rewrite existsb_exists. split.
  - intros [x [Hin Heq]]. apply N.eqb_eq in Heq. now subst.
  - intros Hin. exists c. split; [assumption|apply N.eqb_refl].
Qed.

Lemma before_after_first c s :
  In c s -> s = before_first c s ++ c :: after_first c s.
Proof.
  induction s as [|x s IH]; intros Hin; [destruct Hin|].
  simpl. destruct (N.eqb_spec x c) as [->|Hne]; [reflexivity|].
  simpl. f_equal. apply IH. destruct Hin; congruence.
Qed.

Lemma before_first_app c a b :
  In c a -> before_first c (a ++ b) = before_first c a.
Proof.
  induction a as [|x a IH]; intros Hin; [destruct Hin|].
  simpl. destruct (N.eqb_spec x c) as [->|Hne]; [reflexivity|].
  f_equal. apply IH. destruct Hin; congruence.
Qed.

(** [filename.rsplit('.', 1)[0]] is the filename without its extension,
    and the filename starts with it. *)
Lemma rsplit1_dot_item0 filename :
  item (rsplit1 DOT filename) 0 = remove_extension filename.
Proof.
  unfold rsplit1, remove_extension, DOT. simpl rev at 1.
  destruct (In_dec_char 46%N filename) as [Hin|Hn].
  - rewrite (proj2 (existsb_eqb_In 46%N filename) Hin).
    rewrite partition_char_Some by (now apply in_rev in Hin). reflexivity.
  - destruct (existsb (N.eqb 46) filename) eqn:E.
    + apply existsb_eqb_In in E. contradiction.
    + rewrite partition_char_None; [reflexivity|].
      intros Hin. apply Hn. now apply in_rev.
Qed.

Lemma remove_extension_prefix filename :
  exists ext, filename = remove_extension filename ++ ext.
Proof.
  unfold remove_extension. destruct (existsb (N.eqb 46) filename) eqn:E.
  - apply existsb_eqb_In, in_rev in E.
    apply before_after_first in E.
    exists (46%N :: rev (before_first 46 (rev filename))).
    rewrite <- (rev_involutive filename) at 1. rewrite E at 1.
    rewrite rev_app_distr. simpl. now rewrite <- app_assoc.
  - exists []. now rewrite app_nil_r.
Qed.

(** ** The filename classifier *)

Section ParseFilename.
Context `{Unicode}.

Lemma parse_filename_refuses filename :
  ~ In 95%N filename ->
  parse_filename filename = Raise (ValueError filename).
Proof.
  intros Hn. unfold parse_filename. rewrite rsplit1_dot_item0.
  destruct (remove_extension_prefix filename) as [ext Hext].
  destruct (contains UNDERSCORE (remove_extension filename)) eqn:E;
    [|reflexivity].
  apply contains_char in E. exfalso. apply Hn.
  rewrite Hext. apply in_or_app. now left.
Qed.

Lemma parse_filename_ok filename t :
  parse_filename filename = Ok t ->
  In 95%N (remove_extension filename) /\
  t = lower (before_first 95 (remove_extension filename)).
Proof.
  unfold parse_filename. rewrite rsplit1_dot_item0. intros Ht.
  destruct (contains UNDERSCORE (remove_extension filename)) eqn:E;
    [|discriminate].
  apply contains_char in E. cbn [negb] in Ht. injection Ht as <-.
  unfold split1, UNDERSCORE. change (py "_") with [95%N].
  rewrite partition_char_Some by assumption.
  split; [assumption|reflexivity].
Qed.

Lemma before_first_remove_extension filename :
  In 95%N (remove_extension filename) ->
  before_first 95 filename = before_first 95 (remove_extension filename).
Proof.
  intros Hin. destruct (remove_extension_prefix filename) as [ext Hext].
  transitivity (before_first 95 (remove_extension filename ++ ext)).
  - now rewrite <- Hext.
  - now apply before_first_app.
Qed.
End ParseFilename.

(** C8: a filename without an underscore is refused with the
    [ValueError] that names it (the [InvalidFilenameError] of the
    specification); and whenever [parse_filename] returns a thinker,
    the name without its extension contains an underscore and the
    thinker is the lowercased text before its first underscore, which
    is also the text before the first underscore of the filename. *)
Theorem parse_filename_thinker :
  forall (U : Unicode) (filename : str),
    (~ In 95%N filename ->
     parse_filename filename = Raise (ValueError filename)) /\
    (forall t, parse_filename filename = Ok t ->
       In 95%N (remove_extension filename) /\
       t = lower (before_first 95 (remove_extension filename)) /\
       t = lower (before_first 95 filename)).
Proof.
  intros U filename. split.
  - apply parse_filename_refuses.
  - intros t Ht. destruct (parse_filename_ok filename t Ht) as [Hin Heq].
    split; [assumption|]. split; [assumption|].
    now rewrite before_first_remove_extension.
Qed.

Lemma parse_filename_thinker_witness :
  ~ In 95%N (py "readme.txt") /\
  @parse_filename basic_latin (py "readme.txt")
  = Raise (ValueError (py "readme.txt")).
Proof.
  assert (Hn : ~ In 95%N (py "readme.txt")).
  { intros Hin. simpl in Hin. intuition discriminate. }
  split; [exact Hn|].
  exact (proj1 (parse_filename_thinker basic_latin (py "readme.txt")) Hn).
Defined.

(** ** Stripping *)

Lemma lstrip_head s c r : lstrip s = c :: r -> isspace c = false.
Proof.
  induction s as [|x s IH]; simpl; [discriminate|].
  destruct (isspace x) eqn:E; [assumption|].
  intros Heq. injection Heq as <- _. assumption.
Qed.

Lemma lstrip_snoc l c :
  isspace c = false -> exists u, lstrip (l ++ [c]) = u ++ [c].
Proof.
  intros Hc. induction l as [|x l [u IH]]; simpl.
  - rewrite Hc. now exists [].
  - destruct (isspace x).
    + now exists u.
    + now exists (x :: l).
Qed.

Lemma strip_cons_nonspace c s :
  isspace c = false -> exists r, strip (c :: s) = c :: r.
Proof.
  intros Hc. unfold strip, rstrip. simpl lstrip. rewrite Hc. simpl rev.
  destruct (lstrip_snoc (rev s) c Hc) as [u ->].
  exists (rev u). now rewrite rev_app_distr.
Qed.

Lemma strip_head s c r : strip s = c :: r -> isspace c = false.
Proof.
  unfold strip. destruct (lstrip s) as [|x t] eqn:E.
  - discriminate.
  - pose proof (lstrip_head _ _ _ E) as Hx.
    destruct (strip_cons_nonspace x t Hx) as [r' Hr].
    unfold strip in Hr. simpl lstrip in Hr. rewrite Hx in Hr.
    rewrite Hr. intros Heq. injection Heq as <- _. assumption.
Qed.

(** ** Splitting on [" | "] *)

Lemma split_rounds_nonempty n sep s : split_rounds n sep s <> [].
Proof.
  destruct n; simpl; [discriminate|].
  destruct (partition sep s) as [[a rest]|]; discriminate.
Qed.

(** In a line that does not start with a space, the first field is not
    empty: it starts with the first character of the line. *)
Lemma partition_cons sep c r :
  strip_prefix sep (c :: r) = None ->
  partition sep (c :: r) =
  match partition sep r with
  | Some (a, b) => Some (c :: a, b)
  | None => None
  end.
Proof. intros Hp. cbn [partition]. now rewrite Hp. Qed.

Lemma strip_prefix_delim_nonspace c r :
  isspace c = false -> strip_prefix DELIM (c :: r) = None.
Proof.
  intros Hc. change DELIM with (32 :: py "| ")%N. cbn [strip_prefix].
  destruct (N.eqb_spec 32 c) as [<-|Hne]; [|reflexivity].
  vm_compute in Hc. discriminate Hc.
Qed.

Lemma split_delim_first c r :
  isspace c = false ->
  contains DELIM (c :: r) = true ->
  exists a p1 rest, split DELIM (c :: r) = (c :: a) :: p1 :: rest.
Proof.
  intros Hc Hin. unfold contains in Hin. unfold split.
  cbn [length split_rounds].
  rewrite partition_cons in * by now apply strip_prefix_delim_nonspace.
  destruct (partition DELIM r) as [[a b]|]; [|discriminate].
  destruct (split_rounds (length r) DELIM b) as [|p1 rest] eqn:E.
  - now apply split_rounds_nonempty in E.
  - now exists a, p1, rest.
Qed.

(** ** The pipe-delimited extractor *)

Lemma pipe_line_app entries line :
  pipe_line entries line = entries ++ pipe_line [] line.
Proof.
  unfold pipe_line.
  destruct (negb (nonempty (strip line)) || negb (contains DELIM (strip line)));
    [now rewrite app_nil_r|].
  destruct (2 <=? length (split DELIM (strip line)))%nat;
    [reflexivity|now rewrite app_nil_r].
Qed.

Lemma fold_pipe_line lines : forall entries,
  fold_left pipe_line lines entries = entries ++ flat_map (pipe_line []) lines.
Proof.
  induction lines as [|line lines IH]; intros entries; simpl.
  - now rewrite app_nil_r.
  - rewrite IH, (pipe_line_app entries line). now rewrite app_assoc.
Qed.

(** What one qualifying line contributes. *)
Lemma pipe_line_qualifying line :
  strip line <> [] ->
  contains DELIM (strip line) = true ->
  exists p0 p1 rest,
    split DELIM (strip line) = p0 :: p1 :: rest /\
    p0 <> [] /\ strip p0 <> [] /\
    pipe_line [] line =
      [ {| thinker := strip p0;
           content := strip p1;
           topic := match rest with
                    | [] => None
                    | p2 :: _ => Some (strip p2)
                    end |} ].
Proof.
  intros Hne Hin. unfold pipe_line. rewrite Hin.
  destruct (strip line) as [|c r] eqn:E; [congruence|].
  pose proof (strip_head _ _ _ E) as Hc.
  destruct (split_delim_first c r Hc Hin) as [a [p1 [rest Hs]]].
  rewrite Hs. exists (c :: a), p1, rest.
  split; [reflexivity|]. split; [discriminate|].
  destruct (strip_cons_nonspace c a Hc) as [r' Hr].
  split; [rewrite Hr; discriminate|].
  simpl. destruct rest; reflexivity.
Qed.

(** C5: the entries are those of the lines, in the order of the lines.
    A line contributes nothing when it is empty once stripped or has no
    [" | "]; otherwise it contributes exactly one entry, made of the
    first three fields of the stripped line split on [" | "]: thinker
    and content from the first two, and a topic that is [None] when
    there are just two fields and the third field when there are three
    (any further field is ignored). *)
Theorem extract_pipe_delimited_lines :
  forall text : str,
    extract_pipe_delimited text = flat_map (pipe_line []) (split NL text) /\
    forall line : str,
      (strip line = [] \/ contains DELIM (strip line) = false ->
       pipe_line [] line = []) /\
      (strip line <> [] -> contains DELIM (strip line) = true ->
       exists p0 p1 rest,
         split DELIM (strip line) = p0 :: p1 :: rest /\
         pipe_line [] line =
           [ {| thinker := strip p0;
                content := strip p1;
                topic := match rest with
                         | [] => None
                         | p2 :: _ => Some (strip p2)
                         end |} ]).
Proof.
  intros text. split.
  - unfold extract_pipe_delimited. now rewrite fold_pipe_line.
  - intros line. split.
    + unfold pipe_line. intros [-> | ->]; [reflexivity|].
      now rewrite orb_true_r.
    + intros Hne Hin.
      destruct (pipe_line_qualifying line Hne Hin)
        as [p0 [p1 [rest [Hs [_ [_ Hp]]]]]].
      now exists p0, p1, rest.
Qed.

Lemma extract_pipe_delimited_lines_witness :
  strip (py "immanuel | duty is categorical | ethics") <> [] /\
  contains DELIM (strip (py "immanuel | duty is categorical | ethics")) = true /\
  exists p0 p1 rest,
    split DELIM (strip (py "immanuel | duty is categorical | ethics"))
    = p0 :: p1 :: rest /\
    pipe_line [] (py "immanuel | duty is categorical | ethics") =
      [ {| thinker := strip p0;
           content := strip p1;
           topic := match rest with
                    | [] => None
                    | p2 :: _ => Some (strip p2)
                    end |} ].
Proof.
  assert (H1 : strip (py "immanuel | duty is categorical | ethics") <> [])
    by (vm_compute; discriminate).
  assert (H2 : contains DELIM
                 (strip (py "immanuel | duty is categorical | ethics")) = true)
    by (vm_compute; reflexivity).
  split; [exact H1|]. split; [exact H2|].
  exact (proj2 (proj2 (extract_pipe_delimited_lines [])
                  (py "immanuel | duty is categorical | ethics")) H1 H2).
Defined.

(** The examples of the specification, run. *)
Example pipe_two_fields :
  extract_pipe_delimited (py "kant | duty is categorical") =
  [ {| thinker := py "kant"; content := py "duty is categorical";
       topic := None |} ].
Proof. vm_compute. reflexivity. Qed.

Example pipe_three_fields :
  extract_pipe_delimited
    (py "no delimiter here" ++ NL ++ py "   " ++ NL ++
     py "immanuel | duty is categorical | ethics" ++ NL ++
     py " a | b | c | d ") =
  [ {| thinker := py "immanuel"; content := py "duty is categorical";
       topic := Some (py "ethics") |};
    {| thinker := py "a"; content := py "b"; topic := Some (py "c") |} ].
Proof. vm_compute. reflexivity. Qed.

(** C9: no entry of [extract_pipe_delimited] has an empty thinker, so
    [e.get('thinker') or thinker_from_filename] is the entry's own
    thinker, whatever the filename says. *)
Theorem pipe_thinker_nonempty :
  forall (text : str) (e : entry) (thinker_from_filename : str),
    In e (extract_pipe_delimited text) ->
    thinker e <> [] /\
    entry_thinker e thinker_from_filename = thinker e.
Proof.
  intros text e fallback Hin.
  assert (Hne : thinker e <> []).
  { unfold extract_pipe_delimited in Hin. rewrite fold_pipe_line in Hin.
    simpl in Hin. apply in_flat_map in Hin. destruct Hin as [line [_ He]].
    destruct (strip line) as [|c r] eqn:E.
    - unfold pipe_line in He. rewrite E in He. destruct He.
    - destruct (contains DELIM (strip line)) eqn:Hc.
      + destruct (pipe_line_qualifying line) as [p0 [p1 [rest [_ [_ [H0 Hp]]]]]];
          [congruence|assumption|].
        rewrite Hp in He. destruct He as [<-|[]]. exact H0.
      + unfold pipe_line in He. rewrite Hc in He.
        rewrite orb_true_r in He. destruct He. }
  split; [assumption|].
  unfold entry_thinker, py_or. destruct (thinker e); congruence.
Qed.

Lemma pipe_thinker_nonempty_witness :
  In {| thinker := py "kant"; content := py "duty is categorical";
        topic := None |}
     (extract_pipe_delimited (py "kant | duty is categorical")) /\
  entry_thinker {| thinker := py "kant"; content := py "duty is categorical";
                   topic := None |} (py "hume") = py "kant".
Proof.
  assert (Hin : In {| thinker := py "kant";
                      content := py "duty is categorical"; topic := None |}
                   (extract_pipe_delimited (py "kant | duty is categorical")))
    by (vm_compute; left; reflexivity).
  split; [exact Hin|].
  exact (proj2 (pipe_thinker_nonempty (py "kant | duty is categorical")
                  _ (py "hume") Hin)).
Defined.
(** ** The argument extractor *)

Section ArgumentsFacts.
Context `{Unicode}.

Lemma argument_round_app entries type block l :
  argument_round entries type block = Ok l ->
  exists tail,
    argument_round [] type block = Ok tail /\ l = entries ++ tail.
Proof.
  unfold argument_round.
  destruct (block_importance block) as [v|e]; [|discriminate].
  intros [= <-]. destruct (_ && _).
  - eexists. split; reflexivity.
  - exists []. split; [reflexivity|now rewrite app_nil_r].
Qed.

Lemma argument_round_raise entries type block e :
  argument_round entries type block = Raise e <->
  block_importance block = Raise e.
Proof.
  unfold argument_round.
  destruct (block_importance block) as [v|e']; cbv beta iota zeta;
    split; intros E; try discriminate; injection E as ->; reflexivity.
Qed.

Lemma argument_round_returns entries type block v :
  block_importance block = Ok v ->
  exists tail,
    argument_round [] type block = Ok tail /\
    argument_round entries type block = Ok (entries ++ tail).
Proof.
  intros Hv. unfold argument_round. rewrite Hv. destruct (_ && _).
  - eexists. split; reflexivity.
  - exists []. split; [reflexivity|now rewrite app_nil_r].
Qed.

(** When the loop returns, no round raised and the result is made of
    what the rounds emit, in order. *)
Lemma argument_loop_pairs :
  forall n from_i entries l,
    (length from_i <= n)%nat ->
    argument_loop from_i entries = Ok l ->
    l = entries ++
        flat_map (fun tb => entries_of (argument_round [] (fst tb) (snd tb)))
                 (pairs from_i) /\
    Forall (fun tb => exists v, block_importance (snd tb) = Ok v)
           (pairs from_i).
Proof.
  induction n as [|n IH]; intros from_i entries l Hn Hl.
  - destruct from_i; [|simpl in Hn; lia]. simpl in *.
    injection Hl as <-. now rewrite app_nil_r.
  - destruct from_i as [|type [|block rest]];
      try (simpl in *; injection Hl as <-; now rewrite app_nil_r).
    cbn [argument_loop] in Hl.
    destruct (argument_round entries type block) as [entries'|e] eqn:E;
      [|discriminate].
    destruct (argument_round_app _ _ _ _ E) as [tail [Et ->]].
    destruct (IH rest _ l ltac:(simpl in Hn; lia) Hl) as [-> HF].
    cbn [pairs flat_map fst snd]. rewrite Et. cbn [entries_of]. split.
    + now rewrite app_assoc.
    + constructor; [|exact HF]. cbn [snd].
      destruct (block_importance block) as [v|e] eqn:Ei; [now exists v|].
      apply (argument_round_raise [] type) in Ei. congruence.
Qed.

(** The loop returns when no round raises. *)
Lemma argument_loop_returns :
  forall n from_i entries,
    (length from_i <= n)%nat ->
    Forall (fun tb => exists v, block_importance (snd tb) = Ok v)
           (pairs from_i) ->
    exists l, argument_loop from_i entries = Ok l.
Proof.
  induction n as [|n IH]; intros from_i entries Hn HF.
  - destruct from_i; [|simpl in Hn; lia]. now exists entries.
  - destruct from_i as [|type [|block rest]]; try (now exists entries).
    cbn [pairs] in HF. inversion HF as [|tb tbs [v Hv] HF' E]; subst.
    cbn [snd] in Hv.
    destruct (argument_round_returns entries type block v Hv)
      as [tail [_ Er]].
    cbn [argument_loop]. rewrite Er.
    apply IH; [simpl in Hn; lia|exact HF'].
Qed.

(** The loop raises what the first round that raises does. *)
Lemma argument_loop_raises :
  forall n from_i entries done type block rest e,
    (length from_i <= n)%nat ->
    pairs from_i = done ++ (type, block) :: rest ->
    Forall (fun tb => exists v, block_importance (snd tb) = Ok v) done ->
    block_importance block = Raise e ->
    argument_loop from_i entries = Raise e.
Proof.
  induction n as [|n IH]; intros from_i entries done type block rest e
                                 Hn Hp HF He.
  - destruct from_i; [|simpl in Hn; lia]. now destruct done.
  - destruct from_i as [|type0 [|block0 from_i]];
      try (now destruct done).
    cbn [pairs] in Hp. cbn [argument_loop].
    destruct done as [|[t b] done]; injection Hp as -> -> Hp.
    + apply (argument_round_raise entries type) in He. now rewrite He.
    + inversion HF as [|tb tbs [v Hv] HF' E]; subst. cbn [snd] in Hv.
      destruct (argument_round_returns entries t b v Hv) as [tail [_ ->]].
      apply (IH _ _ done type block rest); try assumption.
      simpl in Hn. lia.
Qed.

Lemma in_extract_arguments text entries e :
  extract_arguments text = Ok entries ->
  In e entries ->
  exists type block tail,
    argument_round [] type block = Ok tail /\ In e tail.
Proof.
  unfold extract_arguments. intros Hl Hin.
  destruct (argument_loop_pairs _ _ _ _ (Nat.le_refl _) Hl) as [-> _].
  simpl in Hin. apply in_flat_map in Hin.
  destruct Hin as [[type block] [_ Hin]]. cbn [fst snd] in Hin.
  destruct (argument_round [] type block) as [tail|e'] eqn:E;
    [|contradiction].
  now exists type, block, tail.
Qed.

Lemma block_thinker_no_author block :
  re_search AUTHOR_RE block = None -> block_thinker block = None.
Proof. intros Hn. unfold block_thinker. now rewrite Hn. Qed.

Lemma int_refuses (s : str) :
  (0 < max_str_digits)%nat ->
  (max_str_digits < length s)%nat ->
  int s = Raise (ValueError s).
Proof.
  intros H0 Hs. unfold int.
  apply Nat.ltb_lt in H0. apply Nat.ltb_lt in Hs. now rewrite H0, Hs.
Qed.
End ArgumentsFacts.

(** C4: [extract_arguments] does not emit a record exactly for the
    blocks that have a premise and a conclusion that is not empty, and
    it does not return on every text.  A block whose conclusion is
    blank before its [*Source] line is emitted, with the [*Source]
    line as its conclusion: the [\s*] before the group takes the line
    break and the group starts on the marker that should have ended
    it.  A block whose only dash stands alone on its line is emitted,
    with the next line as its premise: the [\s*] after the dash takes
    the line break.  And an importance of more digits than the
    interpreter converts makes [int] raise [ValueError], in every round
    that reaches such a block, before the test on the premises and the
    conclusion: no record is returned, of this block or of any other,
    although the block has a premise and a conclusion. *)
Theorem extract_arguments_emits_blank_conclusion :
  (spec_premises (nth 2 (@re_split basic_latin HEADER_RE blank_conclusion) [])
     = [py "all men are mortal"] /\
   spec_conclusion (nth 2 (@re_split basic_latin HEADER_RE blank_conclusion) [])
     = [] /\
   @extract_arguments basic_latin blank_conclusion =
     Ok [ {| arg_thinker := None;
             argument_type := py "deductive";
             premises := [py "all men are mortal"];
             conclusion := py "*Source: logic | Importance: 7/10*";
             arg_topic := Some (py "logic");
             importance := 7 |} ]) /\
  (spec_premises (nth 2 (@re_split basic_latin HEADER_RE bare_dash) []) = [] /\
   spec_conclusion (nth 2 (@re_split basic_latin HEADER_RE bare_dash) [])
     = py "nothing yet" /\
   @extract_arguments basic_latin bare_dash =
     Ok [ {| arg_thinker := None;
             argument_type := py "deductive";
             premises := [py "to be written"];
             conclusion := py "nothing yet";
             arg_topic := None;
             importance := 5 |} ]) /\
  (forall (U : Unicode) (text : str) done type block rest digits,
     (0 < max_str_digits)%nat ->
     pairs (tl (re_split HEADER_RE text)) = done ++ (type, block) :: rest ->
     Forall (fun tb => exists v, block_importance (snd tb) = Ok v) done ->
     option_map group (re_search IMPORTANCE_RE block) = Some digits ->
     (max_str_digits < length digits)%nat ->
     extract_arguments text = Raise (ValueError digits)) /\
  (spec_premises (nth 2 (@re_split basic_latin HEADER_RE long_importance) [])
     = [py "all men are mortal"] /\
   spec_conclusion (nth 2 (@re_split basic_latin HEADER_RE long_importance) [])
     = py "Socrates is mortal" /\
   @extract_arguments basic_latin long_importance =
     Raise (ValueError (repeat 49%N 4301))).
Proof.
  split; [|split; [|split]].
  - repeat split; vm_compute; reflexivity.
  - repeat split; vm_compute; reflexivity.
  - intros U text done type block rest digits H0 Hp HF Hm Hd.
    unfold extract_arguments.
    apply (argument_loop_raises _ _ _ done type block rest _
             (Nat.le_refl _) Hp HF).
    unfold block_importance.
    destruct (re_search IMPORTANCE_RE block) as [m|]; [|discriminate].
    injection Hm as <-. now apply int_refuses.
  - repeat split; vm_compute; reflexivity.
Qed.

Lemma extract_arguments_emits_blank_conclusion_witness :
  (0 < @max_str_digits basic_latin)%nat /\
  pairs (tl (@re_split basic_latin HEADER_RE long_importance)) =
    [] ++ (py "deductive",
           nth 2 (@re_split basic_latin HEADER_RE long_importance) []) :: [] /\
  Forall (fun tb : str * str =>
            exists v, @block_importance basic_latin (snd tb) = Ok v) [] /\
  option_map group
    (@re_search basic_latin IMPORTANCE_RE
       (nth 2 (@re_split basic_latin HEADER_RE long_importance) []))
    = Some (repeat 49%N 4301) /\
  (@max_str_digits basic_latin < length (repeat 49%N 4301))%nat /\
  @extract_arguments basic_latin long_importance =
    Raise (ValueError (repeat 49%N 4301)).
Proof.
  assert (H0 : (0 < @max_str_digits basic_latin)%nat) by (vm_compute; lia).
  assert (Hp : pairs (tl (@re_split basic_latin HEADER_RE long_importance)) =
    [] ++ (py "deductive",
           nth 2 (@re_split basic_latin HEADER_RE long_importance) []) :: [])
    by (vm_compute; reflexivity).
  assert (Hm : option_map group
    (@re_search basic_latin IMPORTANCE_RE
       (nth 2 (@re_split basic_latin HEADER_RE long_importance) []))
    = Some (repeat 49%N 4301)) by (vm_compute; reflexivity).
  assert (Hd : (@max_str_digits basic_latin < length (repeat 49%N 4301))%nat)
    by (rewrite repeat_length; vm_compute; lia).
  split; [exact H0|]. split; [exact Hp|]. split; [constructor|].
  split; [exact Hm|]. split; [exact Hd|].
  exact (proj1 (proj2 (proj2 extract_arguments_emits_blank_conclusion))
           basic_latin long_importance [] _ _ [] _ H0 Hp (Forall_nil _) Hm Hd).
Defined.

(** ** Steps that only print and insert *)

Lemma quiet_ret {A} (a : A) : quiet_step (ret a).
Proof.
  intros w. simpl. repeat split. exists []. now rewrite !app_nil_r.
Qed.

Lemma quiet_lift {A} (r : result A) : quiet_step (lift r).
Proof.
  intros w. simpl. repeat split. exists []. now rewrite !app_nil_r.
Qed.

Lemma quiet_print l : quiet_step (print l).
Proof.
  intros w. simpl. repeat split. exists [Print l]. simpl.
  now rewrite app_nil_r.
Qed.

Lemma quiet_now : quiet_step now.
Proof.
  intros w. simpl. repeat split. exists []. now rewrite !app_nil_r.
Qed.

Lemma quiet_read_file d filename : quiet_step (read_file d filename).
Proof.
  intros w. unfold read_file.
  destruct (lookup filename (files w)) as [[text|text]|]; destruct d; simpl;
    repeat split; exists []; now rewrite !app_nil_r.
Qed.

Lemma quiet_execute `{Database} t r : quiet_step (execute t r).
Proof.
  intros w. unfold execute. destruct (accepts t r); simpl; repeat split.
  - exists [Execute t r]. simpl. auto.
  - exists []. now rewrite !app_nil_r.
Qed.

Lemma executed_app a b : executed (a ++ b) = executed a ++ executed b.
Proof. unfold executed. apply flat_map_app. Qed.

Lemma quiet_bind {A B} (m : M A) (k : A -> M B) :
  quiet_step m -> (forall a, quiet_step (k a)) -> quiet_step (bind m k).
Proof.
  intros Hm Hk w. unfold bind.
  destruct (Hm w) as [Hf [Hpr [Hc [evs [Ht [Hq Hp]]]]]].
  destruct (m w) as [[a|e] w1]; simpl in *.
  - destruct (Hk a w1) as [Hf' [Hpr' [Hc' [evs' [Ht' [Hq' Hp']]]]]].
    repeat split; try congruence.
    exists (evs ++ evs'). rewrite Ht', Ht, Hp', Hp, executed_app.
    rewrite forallb_app, Hq, Hq', !app_assoc. auto.
  - repeat split; try assumption. now exists evs.
Qed.

Lemma quiet_for_each {A} (l : list A) (body : A -> M unit) :
  (forall x, quiet_step (body x)) -> quiet_step (for_each l body).
Proof.
  intros Hb. induction l as [|x l IH]; simpl.
  - apply quiet_ret.
  - apply quiet_bind; [apply Hb|intros _; apply IH].
Qed.

Create HintDb quiet.
#[export] Hint Resolve quiet_ret quiet_lift quiet_print quiet_now
  quiet_read_file : quiet.

(** ** One file *)


Lemma file_spec_bind {A} present filename (m : M A) (k : A -> M unit) :
  quiet_step m ->
  (forall a, file_spec present filename (k a)) ->
  file_spec present filename (bind m k).
Proof.
  intros Hm Hk w Hpre. unfold bind.
  destruct (Hm w) as [Hf [Hpr [Hc [evs [Ht [Hq Hp]]]]]].
  destruct (m w) as [[a|e] w1]; simpl in *.
  - assert (Hpre1 : present = true -> lookup filename (files w1) <> None)
      by now rewrite Hf.
    destruct (Hk a w1 Hpre1) as [evs' [Ht' [Hpr' Hpost]]].
    exists (evs ++ evs'). split; [rewrite Ht', Ht; now rewrite app_assoc|].
    split; [congruence|].
    destruct (fst (k a w1)).
    + destruct Hpost
        as [before [mid [after [He [Hqb [Hm1 [Ha [Hco [Hpe [Hfi Hno]]]]]]]]]].
      exists (evs ++ before), mid, after. repeat split; try assumption.
      * rewrite He. now rewrite app_assoc.
      * now rewrite forallb_app, Hq, Hqb.
      * rewrite Hco, Hc, Hp, executed_app. now rewrite !app_assoc.
      * now rewrite Hfi, Hf.
      * now rewrite <- Hpr.
    + destruct Hpost as [[Hq' [Hco [Hfi Hpe]]]
                        |[He [Hyes [before [mid [Hev [Hqb [Hm1 [Hco [Hpe Hfi]]]]]]]]]].
      * left. repeat split; try congruence.
        -- now rewrite forallb_app, Hq, Hq'.
        -- rewrite Hpe, Hp, executed_app. now rewrite app_assoc.
      * right. split; [assumption|]. split; [now rewrite <- Hpr|].
        exists (evs ++ before), mid. repeat split; try assumption.
        -- rewrite Hev. now rewrite app_assoc.
        -- now rewrite forallb_app, Hq, Hqb.
        -- rewrite Hco, Hc, Hp, executed_app. now rewrite !app_assoc.
        -- congruence.
  - exists evs. split; [assumption|]. split; [assumption|].
    left. repeat split; assumption.
Qed.

Lemma file_spec_read present d filename (k : str -> M unit) :
  (forall text, file_spec true filename (k text)) ->
  file_spec present filename (bind (read_file d filename) k).
Proof.
  intros Hk w _. unfold bind, read_file.
  assert (Hfail : file_post filename w (Raise (ReadError filename)) w).
  { exists []. rewrite !app_nil_r. split; [reflexivity|].
    split; [reflexivity|]. left. repeat split. }
  destruct (lookup filename (files w)) as [[text|text]|] eqn:E;
    [|destruct d|]; simpl; try exact Hfail;
    apply Hk; intros _; rewrite E; discriminate.
Qed.

Lemma file_spec_tail `{Database} filename l1 l2 :
  file_spec true filename
    (commit ;; print l1 ;; remove filename ;; print l2).
Proof.
  intros w Hpre. specialize (Hpre eq_refl).
  unfold bind, commit, print, remove. destruct (commits (pending w)); simpl.
  - destruct (lookup filename (files w)) eqn:E; [|congruence]. simpl.
    destruct (existsb (str_eqb filename) (protected w)) eqn:Ep; simpl.
    + exists [Commit; Print l1]. split.
      * unfold record. cbn [trace]. now rewrite <- !app_assoc.
      * split; [reflexivity|]. right. split; [reflexivity|].
        split; [exact Ep|]. exists [], [Print l1]. simpl.
        rewrite app_nil_r. repeat split.
    + exists [Commit; Print l1; Remove filename; Print l2]. split.
      * unfold record. cbn [trace]. now rewrite <- !app_assoc.
      * split; [reflexivity|].
        exists [], [Print l1], [Print l2]. simpl.
        rewrite app_nil_r. repeat split. assumption.
  - exists []. rewrite !app_nil_r. split; [reflexivity|].
    split; [reflexivity|]. left. repeat split.
Qed.

Ltac quiet_tac :=
  repeat first
    [ progress cbv zeta
    | solve [auto with quiet]
    | apply quiet_execute
    | apply quiet_bind; [|intros ?]
    | apply quiet_for_each; intros ?
    | match goal with |- quiet_step (let '(_, _) := ?p in _) => destruct p end ].

Ltac file_tac :=
  repeat first
    [ progress cbv zeta
    | apply file_spec_tail
    | apply file_spec_read; intros ?
    | apply file_spec_bind; [solve [quiet_tac]|intros ?] ].

Section FileSpec.
Context `{Unicode} `{Database}.

Lemma ingest_positions_file_spec filename :
  file_spec false filename (ingest_positions_file filename).
Proof. unfold ingest_positions_file. file_tac. Qed.

Lemma ingest_quotes_file_spec filename :
  file_spec false filename (ingest_quotes_file filename).
Proof. unfold ingest_quotes_file. file_tac. Qed.

Lemma ingest_arguments_file_spec filename :
  file_spec false filename (ingest_arguments_file filename).
Proof. unfold ingest_arguments_file. file_tac. Qed.

Lemma ingest_chunks_file_spec filename :
  file_spec false filename (ingest_chunks_file filename).
Proof. unfold ingest_chunks_file. file_tac. Qed.

Lemma ingest_works_file_spec filename :
  file_spec false filename (ingest_works_file filename).
Proof. unfold ingest_works_file. file_tac. Qed.

Lemma ingest_file_spec filename :
  file_spec false filename (ingest_file filename).
Proof.
  unfold ingest_file. destruct (get_file_type filename).
  - apply ingest_positions_file_spec.
  - apply ingest_quotes_file_spec.
  - apply ingest_works_file_spec.
  - apply ingest_arguments_file_spec.
  - apply ingest_chunks_file_spec.
Qed.
End FileSpec.

(** ** Commit and delete *)

Lemma quiet_no_commit evs :
  forallb quiet evs = true ->
  ~ In Commit evs /\ ~ In Rollback evs /\ forall f, ~ In (Remove f) evs.
Proof.
  intros Hq. rewrite forallb_forall in Hq.
  split; [|split; [|intros f]]; intros Hin; apply Hq in Hin; discriminate.
Qed.

Lemma print_is_quiet evs :
  forallb is_print evs = true ->
  forallb quiet evs = true /\ executed evs = [].
Proof.
  induction evs as [|ev evs IH]; simpl; [auto|].
  destruct ev; simpl; try discriminate. exact IH.
Qed.


Ltac reassoc :=
  repeat (rewrite <- app_assoc || rewrite <- app_comm_cons); reflexivity.

Section Batch.
Context `{Unicode} `{Database}.

(** [process_file] unfolded on the two results of [ingest_file]. *)
Lemma process_file_ok filename w :
  fst (ingest_file filename w) = Ok tt ->
  process_file filename w =
  (Ok tt, record (Print Blank) (snd (ingest_file filename w))).
Proof.
  intros Hr. unfold process_file, try_except, bind.
  destruct (ingest_file filename w) as [r w1]. simpl in Hr. subst r.
  reflexivity.
Qed.

Lemma process_file_raise filename w e :
  fst (ingest_file filename w) = Raise e ->
  process_file filename w =
  (Ok tt,
   record (Print Blank)
     (snd (rollback (record (Print (Error e))
                       (snd (ingest_file filename w)))))).
Proof.
  intros Hr. unfold process_file, try_except, bind.
  destruct (ingest_file filename w) as [r w1]. simpl in Hr. subst r.
  reflexivity.
Qed.

Lemma process_file_returns filename w : fst (process_file filename w) = Ok tt.
Proof.
  destruct (fst (ingest_file filename w)) as [[]|e] eqn:E.
  - now rewrite process_file_ok.
  - now rewrite (process_file_raise _ _ e).
Qed.


(** The outcome of one round of the loop, in full. *)
Lemma process_file_outcome filename w :
  let w' := snd (process_file filename w) in
  exists evs,
    trace w' = trace w ++ evs /\
    protected w' = protected w /\
    match fst (ingest_file filename w) with
    | Ok _ =>
        exists before after,
          evs = before ++ Remove filename :: after /\
          In Commit before /\
          ~ In (Remove filename) before /\
          ~ In Rollback evs /\
          committed w' = committed w ++ pending w ++ executed evs /\
          pending w' = [] /\
          files w' = unlink filename (files w) /\
          existsb (str_eqb filename) (protected w) = false
    | Raise e =>
        (forall f, ~ In (Remove f) evs) /\
        In Rollback evs /\
        In (Print (Error e)) evs /\
        pending w' = [] /\
        files w' = files w /\
        ((~ In Commit evs /\ committed w' = committed w) \/
         (e = PermissionError filename /\
          existsb (str_eqb filename) (protected w) = true /\
          In Commit evs /\
          committed w' = committed w ++ pending w ++ executed evs))
    end.
Proof.
  intros w'. subst w'.
  destruct (ingest_file_spec filename w) as [evs [Ht [Hpr Hpost]]];
    [discriminate|].
  destruct (fst (ingest_file filename w)) as [[]|e] eqn:E.
  - rewrite process_file_ok by assumption. cbn [snd record trace files
      committed pending protected].
    destruct Hpost
      as [before [mid [after [He [Hqb [Hm [Ha [Hco [Hpe [Hfi Hno]]]]]]]]]].
    apply print_is_quiet in Hm, Ha. destruct Hm as [Hm Hme], Ha as [Ha Hae].
    pose proof (quiet_no_commit _ Hqb) as [Hb1 [Hb2 Hb3]].
    pose proof (quiet_no_commit _ Hm) as [Hm1 [Hm2 Hm3]].
    pose proof (quiet_no_commit _ Ha) as [Ha1 [Ha2 Ha3]].
    exists (evs ++ [Print Blank]). split; [now rewrite Ht, app_assoc|].
    split; [assumption|].
    exists (before ++ Commit :: mid), (after ++ [Print Blank]).
    subst evs. repeat split; try assumption.
    + reassoc.
    + apply in_or_app. right. now left.
    + intros Hin. apply in_app_or in Hin. destruct Hin as [Hin|[Hin|Hin]];
        [now apply (Hb3 filename)|discriminate|now apply (Hm3 filename)].
    + intros Hin.
      repeat (rewrite ?in_app_iff in Hin; simpl in Hin).
      intuition discriminate.
    + rewrite Hco. f_equal. f_equal.
      rewrite !executed_app. simpl. rewrite !executed_app. simpl.
      now rewrite Hme, Hae, !app_nil_r.
  - rewrite (process_file_raise _ _ e) by assumption.
    cbn [snd rollback record trace files committed pending protected].
    exists (evs ++ [Print (Error e); Rollback; Print Blank]).
    split; [rewrite Ht; now rewrite <- !app_assoc|].
    split; [assumption|].
    destruct Hpost as [[Hq [Hco [Hfi Hpe]]]
                      |[He [Hyes [before [mid [Hev [Hqb [Hm [Hco [Hpe Hfi]]]]]]]]]].
    + pose proof (quiet_no_commit _ Hq) as [Hq1 [Hq2 Hq3]].
      repeat split; try assumption.
      * intros f Hin. apply in_app_or in Hin. destruct Hin as [Hin|Hin];
          [now apply (Hq3 f)|]. simpl in Hin. intuition discriminate.
      * apply in_or_app. right. simpl. auto.
      * apply in_or_app. right. simpl. auto.
      * left. split; [|assumption].
        intros Hin. apply in_app_or in Hin. destruct Hin as [Hin|Hin];
          [contradiction|]. simpl in Hin. intuition discriminate.
    + apply print_is_quiet in Hm. destruct Hm as [Hm Hme].
      pose proof (quiet_no_commit _ Hqb) as [Hb1 [Hb2 Hb3]].
      pose proof (quiet_no_commit _ Hm) as [Hm1 [Hm2 Hm3]].
      repeat split; try assumption.
      * intros f Hin. rewrite Hev in Hin.
        repeat (rewrite ?in_app_iff in Hin; simpl in Hin).
        destruct Hin as [[Hin|[Hin|Hin]]|Hin];
          [now apply (Hb3 f)|discriminate|now apply (Hm3 f)
          |intuition discriminate].
      * apply in_or_app. right. simpl. auto.
      * apply in_or_app. right. simpl. auto.
      * right. split; [assumption|]. split; [assumption|]. split.
        -- rewrite Hev. apply in_or_app. left.
           apply in_or_app. right. now left.
        -- rewrite Hco. do 2 f_equal. rewrite Hev.
           rewrite !executed_app. simpl.
           now rewrite Hme, !app_nil_r.
Qed.
End Batch.

(** ** What a computation emits *)

Lemma emits_ret {A} Q (a : A) : emits Q (ret a).
Proof. intros w. exists []. simpl. now rewrite app_nil_r. Qed.

Lemma emits_lift {A} Q (r : result A) : emits Q (lift r).
Proof. intros w. exists []. simpl. now rewrite app_nil_r. Qed.

Lemma emits_now Q : emits Q now.
Proof. intros w. exists []. simpl. now rewrite app_nil_r. Qed.

Lemma emits_read_file Q d filename : emits Q (read_file d filename).
Proof.
  intros w. exists []. unfold read_file.
  destruct (lookup filename (files w)) as [[text|text]|]; destruct d; simpl;
    now rewrite app_nil_r.
Qed.

Lemma emits_print (Q : event -> Prop) l : Q (Print l) -> emits Q (print l).
Proof. intros HQ w. exists [Print l]. simpl. auto. Qed.

Lemma emits_execute `{Database} (Q : event -> Prop) t r :
  Q (Execute t r) -> emits Q (execute t r).
Proof.
  intros HQ w. unfold execute. destruct (accepts t r); simpl.
  - exists [Execute t r]. auto.
  - exists []. now rewrite app_nil_r.
Qed.

Lemma emits_commit `{Database} (Q : event -> Prop) : Q Commit -> emits Q commit.
Proof.
  intros HQ w. unfold commit. destruct (commits (pending w)); simpl.
  - exists [Commit]. auto.
  - exists []. now rewrite app_nil_r.
Qed.

Lemma emits_remove (Q : event -> Prop) filename :
  Q (Remove filename) -> emits Q (remove filename).
Proof.
  intros HQ w. unfold remove.
  destruct (lookup filename (files w));
    [destruct (existsb (str_eqb filename) (protected w))|]; simpl.
  - exists []. now rewrite app_nil_r.
  - exists [Remove filename]. auto.
  - exists []. now rewrite app_nil_r.
Qed.

Lemma emits_bind_ok {A B} Q (m : M A) (k : A -> M B) :
  emits Q m ->
  (forall w a, fst (m w) = Ok a -> emits Q (k a)) ->
  emits Q (bind m k).
Proof.
  intros Hm Hk w. unfold bind. destruct (Hm w) as [evs [Ht HQ]].
  destruct (m w) as [[a|e] w1] eqn:E; simpl in *.
  - destruct (Hk w a (f_equal fst E) w1) as [evs' [Ht' HQ']].
    exists (evs ++ evs'). split.
    + rewrite Ht', Ht. now rewrite app_assoc.
    + apply Forall_app. now split.
  - now exists evs.
Qed.

Lemma emits_bind {A B} Q (m : M A) (k : A -> M B) :
  emits Q m -> (forall a, emits Q (k a)) -> emits Q (bind m k).
Proof. intros Hm Hk. apply emits_bind_ok; [assumption|]. intros _ a _. apply Hk. Qed.

Lemma emits_for_each {A} Q (l : list A) (body : A -> M unit) :
  (forall x, emits Q (body x)) -> emits Q (for_each l body).
Proof.
  intros Hb. induction l as [|x l IH]; simpl.
  - apply emits_ret.
  - apply emits_bind; [apply Hb|intros _; apply IH].
Qed.

Lemma not_insert_executed evs : Forall not_insert evs -> executed evs = [].
Proof.
  induction 1 as [|ev evs Hev _ IH]; [reflexivity|].
  destruct ev; simpl in *; try assumption. contradiction.
Qed.

Lemma executed_map_execute (rows : list (table * row)) :
  executed (map (fun tr => Execute (fst tr) (snd tr)) rows) = rows.
Proof.
  induction rows as [|[t r] rows IH]; simpl; [reflexivity|]. now rewrite IH.
Qed.

(** ** The insert loops *)

Lemma combine_shift {A} (l1 : list nat) (l2 : list A) :
  combine (map S l1) l2 = map (fun iy => (S (fst iy), snd iy)) (combine l1 l2).
Proof.
  revert l2. induction l1 as [|i l1 IH]; intros [|y l2]; simpl;
    try reflexivity. now rewrite IH.
Qed.

Section InsertLoop.
Context `{Database}.
Context {A : Type}.
Variable tbl : table.
Variable mk : A -> nat -> row.

Lemma rows_from_cons t0 x l :
  rows_from tbl mk t0 (x :: l) = (tbl, mk x t0) :: rows_from tbl mk (S t0) l.
Proof.
  unfold rows_from, enumerate. simpl. rewrite Nat.add_0_r. f_equal.
  rewrite <- seq_shift. rewrite combine_shift, map_map.
  apply map_ext. intros [i y]. simpl. do 2 f_equal. lia.
Qed.

Lemma insert_all_cons x l w :
  insert_all tbl mk (x :: l) w =
  if accepts tbl (mk x (clock w)) then
    insert_all tbl mk l
      {| files := files w; protected := protected w; committed := committed w;
         pending := pending w ++ [(tbl, mk x (clock w))];
         clock := S (clock w);
         trace := trace w ++ [Execute tbl (mk x (clock w))] |}
  else
    (Raise DatabaseError,
     {| files := files w; protected := protected w;
        committed := committed w; pending := pending w;
        clock := S (clock w); trace := trace w |}).
Proof.
  unfold insert_all. cbn [for_each]. unfold bind, now, execute. simpl.
  destruct (accepts tbl (mk x (clock w))); reflexivity.
Qed.

(** The loop inserts the rows of the entries in order, stamped with
    consecutive readings of the clock, until the database refuses
    one; when it returns it has inserted them all.  It touches
    neither the committed rows nor the folder. *)
Lemma insert_all_runs l : forall w,
  exists n,
    trace (snd (insert_all tbl mk l w)) =
      trace w ++ map (fun tr => Execute (fst tr) (snd tr))
                     (firstn n (rows_from tbl mk (clock w) l)) /\
    (fst (insert_all tbl mk l w) = Ok tt -> (length l <= n)%nat).
Proof.
  induction l as [|x l IH]; intros w.
  - exists 0%nat. simpl. rewrite app_nil_r. auto.
  - rewrite insert_all_cons, rows_from_cons.
    destruct (accepts tbl (mk x (clock w))).
    + match goal with |- context [insert_all tbl mk l ?w1] =>
        destruct (IH w1) as [n [Ht Hok]] end.
      exists (S n). split.
      * rewrite Ht. cbn [trace clock firstn map fst snd].
        now rewrite <- app_assoc.
      * intros Hr. specialize (Hok Hr). simpl. lia.
    + exists 0%nat. simpl. rewrite app_nil_r. split; [reflexivity|].
      discriminate.
Qed.
End InsertLoop.

(** ** Running the first steps of an ingest routine *)

Lemma run_print l (k : M unit) w :
  (print l ;; k) w = k (record (Print l) w).
Proof. reflexivity. Qed.

Lemma run_bind {A B} (m : M A) (k : A -> M B) w :
  bind m k w =
  match m w with
  | (Ok a, w') => k a w'
  | (Raise e, w') => (Raise e, w')
  end.
Proof. reflexivity. Qed.

Lemma run_lift_ok {A B} (a : A) (k : A -> M B) w :
  (x <- lift (Ok a) ;; k x) w = k a w.
Proof. reflexivity. Qed.

Lemma run_lift_raise {A B} e (k : A -> M B) w :
  (x <- lift (Raise e) ;; k x) w = (Raise e, w).
Proof. reflexivity. Qed.

Lemma run_read_valid {B} d filename text (k : str -> M B) w :
  lookup filename (files w) = Some (Valid text) ->
  (x <- read_file d filename ;; k x) w = k text w.
Proof.
  intros Hl. unfold bind, read_file. rewrite Hl. now destruct d.
Qed.

Lemma run_read_ignore {B} filename c (k : str -> M B) w :
  lookup filename (files w) = Some c ->
  (x <- read_file IgnoreErrors filename ;; k x) w = k (decoded c) w.
Proof.
  intros Hl. unfold bind, read_file. rewrite Hl. now destruct c.
Qed.



Lemma tail_not_insert `{Database} filename l1 l2 :
  emits not_insert (commit ;; print l1 ;; remove filename ;; print l2).
Proof.
  apply emits_bind; [now apply emits_commit|intros _].
  apply emits_bind; [now apply emits_print|intros _].
  apply emits_bind; [now apply emits_remove|intros _].
  now apply emits_print.
Qed.

Lemma for_each_ext {A} (l : list A) (body1 body2 : A -> M unit) :
  (forall x, body1 x = body2 x) -> for_each l body1 = for_each l body2.
Proof.
  intros Hb. induction l as [|x l IH]; [reflexivity|].
  cbn [for_each]. now rewrite Hb, IH.
Qed.

(** ** Rows and their positions *)

Lemma nth_error_combine_seq {A} (l : list A) : forall a k x,
  nth_error l k = Some x ->
  nth_error (combine (seq a (length l)) l) k = Some (a + k, x).
Proof.
  induction l as [|y l IH]; intros a k x Hk; [now destruct k|].
  destruct k as [|k]; simpl in *.
  - injection Hk as ->. now rewrite Nat.add_0_r.
  - rewrite (IH (S a) k x Hk). do 2 f_equal. lia.
Qed.

Lemma nth_error_enumerate {A} (l : list A) k x :
  nth_error l k = Some x -> nth_error (enumerate l) k = Some (k, x).
Proof. intros Hk. unfold enumerate. now rewrite (nth_error_combine_seq l 0 k x). Qed.

Lemma length_enumerate {A} (l : list A) : length (enumerate l) = length l.
Proof. unfold enumerate. rewrite length_combine, length_seq. lia. Qed.

Lemma length_rows_from {A} tbl (mk : A -> nat -> row) t0 l :
  length (rows_from tbl mk t0 l) = length l.
Proof. unfold rows_from. now rewrite length_map, length_enumerate. Qed.

Lemma nth_error_rows_from {A} tbl (mk : A -> nat -> row) t0 l k x :
  nth_error l k = Some x ->
  nth_error (rows_from tbl mk t0 l) k = Some (tbl, mk x (t0 + k)).
Proof.
  intros Hk. unfold rows_from.
  now rewrite nth_error_map, (nth_error_enumerate l k x Hk).
Qed.

Lemma no_commit_among_inserts (rows : list (table * row)) :
  ~ In Commit (map (fun tr => Execute (fst tr) (snd tr)) rows).
Proof.
  intros Hin. apply in_map_iff in Hin. destruct Hin as [tr [Hc _]].
  discriminate Hc.
Qed.

(** The events of a run are determined by its trace. *)
Lemma same_events (t evs evs' : list event) (w' : world) :
  trace w' = t ++ evs -> trace w' = t ++ evs' -> evs' = evs.
Proof. intros H1 H2. rewrite H1 in H2. now apply app_inv_head in H2. Qed.

Section Rows.
Context `{Unicode} `{Database}.

(** An insert loop followed by the commit and the removal: the rows
    inserted are the first rows of the entries, all of them when the
    routine returns and all of them when it commits. *)
Lemma insert_commit_rows {A} tbl (mk : A -> nat -> row) (l : list A)
      filename l1 l2 w :
  let out := (insert_all tbl mk l ;; commit ;; print l1 ;;
              remove filename ;; print l2) w in
  exists evs n,
    trace (snd out) = trace w ++ evs /\
    executed evs = firstn n (rows_from tbl mk (clock w) l) /\
    (fst out = Ok tt -> executed evs = rows_from tbl mk (clock w) l) /\
    (In Commit evs -> executed evs = rows_from tbl mk (clock w) l).
Proof.
  intros out. subst out. rewrite run_bind.
  destruct (insert_all_runs tbl mk l w) as [n [Ht Hok]].
  destruct (insert_all tbl mk l w) as [[[]|e] w4]; cbn [fst snd] in *.
  - destruct (tail_not_insert filename l1 l2 w4) as [evs2 [Ht2 HQ]].
    exists (map (fun tr => Execute (fst tr) (snd tr))
                (firstn n (rows_from tbl mk (clock w) l)) ++ evs2).
    assert (Hall : executed
      (map (fun tr => Execute (fst tr) (snd tr))
           (firstn n (rows_from tbl mk (clock w) l)) ++ evs2)
      = rows_from tbl mk (clock w) l).
    { rewrite executed_app, executed_map_execute.
      rewrite (not_insert_executed _ HQ), app_nil_r.
      apply firstn_all2. rewrite length_rows_from. now apply Hok. }
    exists n. split; [|split; [|split]].
    + rewrite Ht2, Ht. symmetry. apply app_assoc.
    + rewrite executed_app, executed_map_execute.
      rewrite (not_insert_executed _ HQ). now rewrite app_nil_r.
    + intros _. exact Hall.
    + intros _. exact Hall.
  - exists (map (fun tr => Execute (fst tr) (snd tr))
                (firstn n (rows_from tbl mk (clock w) l))).
    exists n. split; [exact Ht|]. split; [|split].
    + now rewrite executed_map_execute.
    + intros Hr. discriminate Hr.
    + intros Hin. now apply no_commit_among_inserts in Hin.
Qed.

(** What [file_spec] says of a run that returned. *)
Lemma committed_of_return filename (m : M unit) w evs :
  file_spec false filename m ->
  trace (snd (m w)) = trace w ++ evs ->
  fst (m w) = Ok tt ->
  committed (snd (m w)) = committed w ++ pending w ++ executed evs /\
  pending (snd (m w)) = [] /\
  files (snd (m w)) = unlink filename (files w).
Proof.
  intros Hspec Ht Hr.
  destruct (Hspec w) as [evs' [Ht' [_ Hpost]]]; [discriminate|].
  rewrite Hr in Hpost.
  destruct Hpost
    as [before [mid [after [Hev [_ [Hm [Ha [Hco [Hpe [Hfi _]]]]]]]]]].
  rewrite (same_events _ _ _ _ Ht Ht') in Hev.
  split; [|split; assumption].
  rewrite Hco. do 2 f_equal. rewrite Hev.
  apply print_is_quiet in Hm, Ha.
  rewrite executed_app. simpl. rewrite executed_app. simpl.
  rewrite (proj2 Hm), (proj2 Ha). now rewrite app_nil_r.
Qed.

(** What [file_spec] says of a run that committed: the pending rows
    and all the rows inserted are in the database. *)
Lemma committed_of_commit filename (m : M unit) w evs :
  file_spec false filename m ->
  trace (snd (m w)) = trace w ++ evs ->
  In Commit evs ->
  committed (snd (m w)) = committed w ++ pending w ++ executed evs /\
  pending (snd (m w)) = [] /\
  (fst (m w) = Ok tt \/ fst (m w) = Raise (PermissionError filename)).
Proof.
  intros Hspec Ht Hin.
  destruct (Hspec w) as [evs' [Ht' [_ Hpost]]]; [discriminate|].
  assert (Heq : evs' = evs) by exact (same_events _ _ _ _ Ht Ht').
  destruct (fst (m w)) as [[]|e].
  - destruct Hpost
      as [before [mid [after [Hev [_ [Hm [Ha [Hco [Hpe _]]]]]]]]].
    split; [|split; [assumption|now left]].
    rewrite Hco. do 2 f_equal. rewrite <- Heq, Hev.
    apply print_is_quiet in Hm, Ha.
    rewrite executed_app. simpl. rewrite executed_app. simpl.
    rewrite (proj2 Hm), (proj2 Ha). now rewrite app_nil_r.
  - destruct Hpost as [[Hq _]|[He [_ [before [mid [Hev [_ [Hm [Hco [Hpe _]]]]]]]]]].
    + rewrite Heq in Hq. now apply quiet_no_commit in Hq.
    + split; [|split; [assumption|right; now rewrite He]].
      rewrite Hco. do 2 f_equal. rewrite <- Heq, Hev.
      apply print_is_quiet in Hm.
      rewrite executed_app. simpl. now rewrite (proj2 Hm), app_nil_r.
Qed.
End Rows.
(** ** The rows of an arguments file *)

Section ArgumentRows.
Context `{Unicode} `{Database}.

Lemma argument_row_fallback tff e t :
  arg_thinker e = None -> nth 0 (argument_row tff e t) Null = Text tff.
Proof. intros He. unfold argument_row. now rewrite He. Qed.

Lemma no_author_null_thinker type block e :
  re_search AUTHOR_RE block = None ->
  In e (entries_of (argument_round [] type block)) ->
  arg_thinker e = None.
Proof.
  intros Hn Hin. unfold argument_round in Hin.
  destruct (block_importance block) as [v|e']; [|destruct Hin].
  cbn [entries_of] in Hin.
  match type of Hin with context [if ?c then _ else _] => destruct c end;
    [|destruct Hin].
  destruct Hin as [<-|[]]. simpl. now apply block_thinker_no_author.
Qed.

Lemma ingest_arguments_file_rows filename w tff text :
  parse_filename filename = Ok tff ->
  lookup filename (files w) = Some (Valid text) ->
  let rows := rows_from tbl_arguments (argument_row tff) (clock w)
                        (entries_of (extract_arguments text)) in
  let out := ingest_arguments_file filename w in
  exists evs n,
    trace (snd out) = trace w ++ evs /\
    executed evs = firstn n rows /\
    (fst out = Ok tt -> executed evs = rows) /\
    (In Commit evs ->
     (exists entries, extract_arguments text = Ok entries) /\
     executed evs = rows).
Proof.
  intros Hp Hl rows out. subst out rows. unfold ingest_arguments_file.
  rewrite run_print, Hp, run_lift_ok, run_print.
  rewrite (run_read_valid _ _ text) by exact Hl.
  destruct (extract_arguments text) as [entries|e] eqn:Ex.
  - rewrite run_lift_ok, run_print. cbn [entries_of].
    match goal with |- context [bind (for_each ?l ?body) ?k ?w3] =>
      change (bind (for_each l body) k w3)
        with (bind (insert_all tbl_arguments (argument_row tff) l) k w3);
      destruct (insert_commit_rows tbl_arguments (argument_row tff) l filename
                  (Inserted Arguments (length l)) (Deleted filename) w3)
        as [evs [n [Ht [He [Hok Hco]]]]]
    end.
    cbn [record clock trace] in Ht, He, Hok, Hco.
    rewrite <- !app_assoc in Ht.
    eexists. exists n. split; [exact Ht|]. split; [exact He|].
    split; [exact Hok|]. intros Hin. split; [now exists entries|].
    apply Hco. simpl in Hin.
    repeat (destruct Hin as [Hin|Hin]; [discriminate|]). exact Hin.
  - rewrite run_lift_raise. cbn [fst snd record trace entries_of].
    eexists. exists 0%nat. split; [now rewrite <- !app_assoc|].
    split; [reflexivity|]. split; [discriminate|].
    intros Hin. simpl in Hin. intuition discriminate.
Qed.
End ArgumentRows.

(** C1, as the code has it: a block with no [**Author:**] match is
    extracted with a null thinker, and the rows inserted into
    [arguments] for an arguments file are those of its entries, in
    order, where the thinker of an entry without one is the thinker
    derived from the filename; when the file is ingested without an
    exception, every entry has its row and the rows are committed. *)
Theorem arguments_thinker_fallback :
  forall (U : Unicode) (D : Database) (filename : str) (w : world)
         (thinker_from_filename text : str),
    get_file_type filename = Arguments ->
    parse_filename filename = Ok thinker_from_filename ->
    lookup filename (files w) = Some (Valid text) ->
    (forall type block e,
        re_search AUTHOR_RE block = None ->
        In e (entries_of (argument_round [] type block)) ->
        arg_thinker e = None) /\
    (forall e t,
        arg_thinker e = None ->
        nth 0 (argument_row thinker_from_filename e t) Null
        = Text thinker_from_filename) /\
    exists evs n,
      trace (snd (ingest_file filename w)) = trace w ++ evs /\
      executed evs =
        firstn n (rows_from tbl_arguments (argument_row thinker_from_filename)
                            (clock w) (entries_of (extract_arguments text))) /\
      (fst (ingest_file filename w) = Ok tt ->
       executed evs =
         rows_from tbl_arguments (argument_row thinker_from_filename)
                   (clock w) (entries_of (extract_arguments text)) /\
       committed (snd (ingest_file filename w)) =
         committed w ++ pending w ++ executed evs).
Proof.
  intros U D filename w tff text Hty Hp Hl.
  split; [apply no_author_null_thinker|].
  split; [apply argument_row_fallback|].
  destruct (ingest_arguments_file_rows filename w tff text Hp Hl)
    as [evs [n [Ht [He [Hok _]]]]].
  unfold ingest_file. rewrite Hty.
  exists evs, n. split; [exact Ht|]. split; [exact He|].
  intros Hr. split; [now apply Hok|].
  exact (proj1 (committed_of_return filename _ w evs
                  (ingest_arguments_file_spec filename) Ht Hr)).
Qed.

Lemma arguments_thinker_fallback_witness :
  map (fun tr => nth 0 (snd tr) Null)
      (committed (snd (@ingest_file basic_latin refuses_spinoza
                         (py "Hume_arguments_3.md")
                         (empty_world anonymous_folder))))
  = [Text (py "hume")].
Proof.
  destruct (arguments_thinker_fallback basic_latin refuses_spinoza
              (py "Hume_arguments_3.md") (empty_world anonymous_folder)
              (py "hume") sample_anonymous
              ltac:(vm_compute; reflexivity)
              ltac:(vm_compute; reflexivity)
              ltac:(vm_compute; reflexivity))
    as [_ [_ [evs [n [_ [_ Hok]]]]]].
  destruct (Hok ltac:(vm_compute; reflexivity)) as [He Hco].
  rewrite Hco, He. vm_compute. reflexivity.
Defined.

(** The claim as it was stated fails: the block has no author, its
    entry has a null thinker, and the row inserted for it carries the
    thinker of the filename, not a null. *)
Lemma arguments_null_thinker_counterexample :
  @re_search basic_latin AUTHOR_RE
     (nth 2 (@re_split basic_latin HEADER_RE sample_anonymous) []) = None /\
  map arg_thinker (entries_of (@extract_arguments basic_latin sample_anonymous))
  = [None] /\
  @get_file_type basic_latin (py "Hume_arguments_3.md") = Arguments /\
  map (fun tr => nth 0 (snd tr) Null)
      (committed (snd (@ingest_file basic_latin refuses_spinoza
                         (py "Hume_arguments_3.md")
                         (empty_world anonymous_folder))))
  = [Text (py "hume")] /\
  ~ (forall tr,
       In tr (committed (snd (@ingest_file basic_latin refuses_spinoza
                                (py "Hume_arguments_3.md")
                                (empty_world anonymous_folder)))) ->
       nth 0 (snd tr) Null = Null).
Proof.
  repeat split; try (vm_compute; reflexivity).
  intros Hall.
  specialize (Hall (tbl_arguments,
                    argument_row (py "hume")
                      {| arg_thinker := None;
                         argument_type := py "inductive";
                         premises := [py "the sun rose yesterday"];
                         conclusion := py "the sun rises";
                         arg_topic := None;
                         importance := 5 |} 0)).
  assert (Hin : In (tbl_arguments,
                    argument_row (py "hume")
                      {| arg_thinker := None;
                         argument_type := py "inductive";
                         premises := [py "the sun rose yesterday"];
                         conclusion := py "the sun rises";
                         arg_topic := None;
                         importance := 5 |} 0)
                   (committed (snd (@ingest_file basic_latin refuses_spinoza
                                      (py "Hume_arguments_3.md")
                                      (empty_world anonymous_folder)))))
    by (vm_compute; left; reflexivity).
  apply Hall in Hin. vm_compute in Hin. discriminate Hin.
Qed.

(** ** The rows of a chunks file *)

Section ChunkRows.
Context `{Unicode} `{Database}.

Lemma ingest_chunks_file_source filename :
  emits (stores_source (after_first 95 (remove_extension filename)))
        (ingest_chunks_file filename).
Proof.
  unfold ingest_chunks_file.
  apply emits_bind; [now apply emits_print|intros _].
  apply emits_bind_ok; [apply emits_lift|]. intros w thinker Ht.
  destruct (parse_filename_ok filename thinker Ht) as [Hin _].
  cbv zeta. rewrite rsplit1_dot_item0.
  unfold split1, UNDERSCORE. change (py "_") with [95%N].
  rewrite partition_char_Some by assumption.
  cbn [length Nat.ltb Nat.leb item nth].
  apply emits_bind; [now apply emits_print|intros _].
  apply emits_bind; [now apply emits_print|intros _].
  apply emits_bind; [apply emits_read_file|intros text].
  apply emits_bind; [now apply emits_print|intros _].
  apply emits_bind.
  - apply emits_for_each. intros [index chunk].
    apply emits_bind; [apply emits_now|intros t].
    apply emits_execute. simpl. auto.
  - intros _.
    apply emits_bind; [now apply emits_commit|intros _].
    apply emits_bind; [now apply emits_print|intros _].
    apply emits_bind; [now apply emits_remove|intros _].
    now apply emits_print.
Qed.
End ChunkRows.

(** C10: every row a chunks-type file inserts goes to [text_chunks]
    and has, in the column [source_file], the filename without its
    extension and without everything up to its first underscore; when
    the file is ingested without an exception these rows are the ones
    committed.  For [kant_notes_2.txt] the column holds [notes_2]. *)
Theorem chunk_source_file :
  (forall (U : Unicode) (D : Database) (filename : str) (w : world),
     get_file_type filename = Chunks ->
     exists evs,
       trace (snd (ingest_file filename w)) = trace w ++ evs /\
       (forall t r, In (Execute t r) evs ->
          t = tbl_text_chunks /\
          nth 1 r Null = Text (after_first 95 (remove_extension filename))) /\
       (fst (ingest_file filename w) = Ok tt ->
        committed (snd (ingest_file filename w)) =
          committed w ++ pending w ++ executed evs)) /\
  after_first 95 (remove_extension (py "kant_notes_2.txt")) = py "notes_2" /\
  committed (snd (@ingest_file basic_latin refuses_spinoza
                    (py "kant_notes_2.txt") (empty_world chunks_folder)))
  = [ (tbl_text_chunks,
       [Text (py "kant"); Text (py "notes_2");
        Text (py "the starry heavens above me"); Int 0; Time 0]) ].
Proof.
  split; [|split; vm_compute; reflexivity].
  intros U D filename w Hty.
  unfold ingest_file. rewrite Hty.
  destruct (ingest_chunks_file_source filename w) as [evs [Ht HQ]].
  exists evs. split; [exact Ht|]. split.
  - intros t r Hin. rewrite Forall_forall in HQ. exact (HQ _ Hin).
  - intros Hr.
    exact (proj1 (committed_of_return filename _ w evs
                    (ingest_chunks_file_spec filename) Ht Hr)).
Qed.

Lemma chunk_source_file_witness :
  @get_file_type basic_latin (py "kant_notes_2.txt") = Chunks /\
  exists evs,
    trace (snd (@ingest_file basic_latin refuses_spinoza
                  (py "kant_notes_2.txt") (empty_world chunks_folder)))
    = trace (empty_world chunks_folder) ++ evs /\
    (forall t r, In (Execute t r) evs ->
       t = tbl_text_chunks /\
       nth 1 r Null
       = Text (after_first 95 (remove_extension (py "kant_notes_2.txt")))).
Proof.
  assert (Hty : @get_file_type basic_latin (py "kant_notes_2.txt") = Chunks)
    by (vm_compute; reflexivity).
  split; [exact Hty|].
  destruct (proj1 chunk_source_file basic_latin refuses_spinoza
              (py "kant_notes_2.txt") (empty_world chunks_folder) Hty)
    as [evs [Ht [Hrows _]]].
  exists evs. split; [exact Ht|exact Hrows].
Defined.

(** ** The batch *)

Section BatchLoop.
Context `{Unicode} `{Database}.

Lemma for_each_process_cons filename rest w :
  for_each (filename :: rest) process_file w =
  for_each rest process_file (snd (process_file filename w)).
Proof.
  cbn [for_each]. rewrite run_bind.
  pose proof (process_file_returns filename w) as Hr.
  destruct (process_file filename w) as [r w1]. simpl in *. now subst r.
Qed.

Lemma for_each_process_returns files w :
  fst (for_each files process_file w) = Ok tt.
Proof.
  revert w. induction files as [|f files IH]; intros w; [reflexivity|].
  rewrite for_each_process_cons. apply IH.
Qed.

End BatchLoop.



(** ** More on stripping and slicing *)

Lemma lstrip_suffix s : exists p, s = p ++ lstrip s.
Proof.
  induction s as [|c s [p IH]]; simpl.
  - now exists [].
  - destruct (isspace c).
    + exists (c :: p). simpl. now f_equal.
    + now exists [].
Qed.

Lemma lstrip_lstrip s : lstrip (lstrip s) = lstrip s.
Proof.
  induction s as [|c s IH]; simpl; [reflexivity|].
  destruct (isspace c) eqn:E; [assumption|]. simpl. now rewrite E.
Qed.

Lemma lstrip_nonspace_head s :
  (forall c r, s = c :: r -> isspace c = false) -> lstrip s = s.
Proof.
  destruct s as [|c r]; intros Hc; [reflexivity|].
  simpl. now rewrite (Hc c r eq_refl).
Qed.

Lemma strip_strip s : strip (strip s) = strip s.
Proof.
  assert (Hl : lstrip (strip s) = strip s).
  { apply lstrip_nonspace_head. intros c r. apply strip_head. }
  unfold strip at 1. rewrite Hl. unfold strip, rstrip.
  rewrite rev_involutive. now rewrite lstrip_lstrip.
Qed.

Lemma strip_substring s : substring (strip s) s.
Proof.
  unfold strip, rstrip.
  destruct (lstrip_suffix s) as [p Hp].
  destruct (lstrip_suffix (rev (lstrip s))) as [q Hq].
  exists p, (rev q). rewrite Hp at 1. f_equal.
  rewrite <- (rev_involutive (lstrip s)) at 1. rewrite Hq at 1.
  now rewrite rev_app_distr.
Qed.

Lemma py_slice_substring s start stop : substring (py_slice s start stop) s.
Proof.
  unfold py_slice.
  set (lo := Z.to_nat (slice_index (len s) start)).
  set (n := Z.to_nat (slice_index (len s) stop - slice_index (len s) start)).
  exists (firstn lo s), (skipn n (skipn lo s)).
  now rewrite firstn_skipn, firstn_skipn.
Qed.

Lemma substring_trans a b c : substring a b -> substring b c -> substring a c.
Proof.
  intros [p1 [q1 H1]] [p2 [q2 H2]]. exists (p2 ++ p1), (q1 ++ q2).
  rewrite H2, H1. now rewrite <- !app_assoc.
Qed.

Lemma substring_length a b : substring a b -> (length a <= length b)%nat.
Proof. intros [p [q ->]]. rewrite !length_app. lia. Qed.

Lemma py_slice_length s start size :
  (0 <= start)%Z -> (0 <= size)%Z ->
  (len (py_slice s start (start + size)) <= size)%Z.
Proof.
  intros Hs Hz. unfold py_slice, len. rewrite length_firstn.
  unfold slice_index.
  destruct (Z.ltb_spec start 0); [lia|].
  destruct (Z.ltb_spec (start + size) 0); lia.
Qed.

(** ** More on the chunker *)

Section ChunkInvariant.
Variable text : str.
Variables size overlap : Z.
Variable I : Z -> Prop.
Variable P : str -> Prop.
Hypothesis I_step : forall s, I s -> I (s + size - overlap)%Z.
Hypothesis P_window : forall s, I s -> P (strip (py_slice text s (s + size))).

Lemma chunk_loop_Forall fuel : forall start chunks result,
  I start ->
  Forall P chunks ->
  chunk_loop fuel text size overlap start chunks = Some result ->
  Forall P result.
Proof.
  induction fuel as [|fuel IH]; intros start chunks result Hi Hc Hr;
    [discriminate|].
  simpl in Hr. destruct (start <? len text)%Z.
  - apply (IH _ _ _ (I_step _ Hi)) in Hr; [assumption|].
    apply Forall_app. split; [assumption|]. constructor; [|constructor].
    now apply P_window.
  - now injection Hr as <-.
Qed.
End ChunkInvariant.

Lemma chunk_text_Forall (P : str -> Prop) (I : Z -> Prop)
      fuel text size overlap chunks :
  I 0%Z ->
  (forall s, I s -> I (s + size - overlap)%Z) ->
  (forall s, I s -> P (strip (py_slice text s (s + size)))) ->
  chunk_text fuel text size overlap = Some chunks ->
  Forall (fun c => P c /\ c <> []) chunks.
Proof.
  intros H0 Hstep HP Hr. unfold chunk_text in Hr.
  destruct (chunk_loop fuel text size overlap 0 []) as [result|] eqn:E;
    [|discriminate].
  injection Hr as <-.
  pose proof (chunk_loop_Forall text size overlap I P Hstep HP fuel 0%Z []
                result H0 (Forall_nil _) E) as Hall.
  rewrite Forall_forall in *. intros c Hin. apply filter_In in Hin.
  destruct Hin as [Hin Hne]. split; [now apply Hall|].
  intros ->. discriminate.
Qed.

Lemma chunk_loop_stuck text size overlap :
  (0 < len text)%Z -> (size <= overlap)%Z ->
  forall fuel start chunks,
    (start <= 0)%Z -> chunk_loop fuel text size overlap start chunks = None.
Proof.
  intros Hlen Hso. induction fuel as [|fuel IH]; intros start chunks Hs;
    [reflexivity|].
  simpl. destruct (Z.ltb_spec start (len text)); [|lia].
  apply IH. lia.
Qed.

(** X1: on the empty text the chunker returns no chunk, whatever the
    parameters; on a text that is not empty it never returns when the
    overlap is not smaller than the chunk size. *)
Theorem chunk_text_empty_or_stuck :
  forall (text : str) (size overlap : Z) (fuel : nat),
    (text = [] -> chunk_text (S fuel) text size overlap = Some []) /\
    (text <> [] -> (size <= overlap)%Z ->
     chunk_text fuel text size overlap = None).
Proof.
  intros text size overlap fuel. split.
  - intros ->. reflexivity.
  - intros Hne Hso. unfold chunk_text.
    rewrite chunk_loop_stuck; try reflexivity; try lia.
    unfold len. destruct text; [congruence|simpl; lia].
Qed.

Lemma chunk_text_empty_or_stuck_witness :
  py "abc" <> [] /\ (100 <= 100)%Z /\
  chunk_text 50 (py "abc") 100 100 = None.
Proof.
  assert (Hne : py "abc" <> []) by discriminate.
  assert (Hso : (100 <= 100)%Z) by lia.
  split; [exact Hne|]. split; [exact Hso|].
  exact (proj2 (chunk_text_empty_or_stuck (py "abc") 100 100 50) Hne Hso).
Defined.

(** X2: whatever the parameters, every chunk the chunker returns is
    not empty, is unchanged by another [strip] (it has no whitespace
    at either end), and is a run of consecutive characters of the
    text. *)
Theorem chunk_text_chunks_clean :
  forall (fuel : nat) (text : str) (size overlap : Z) (chunks : list str)
         (c : str),
    chunk_text fuel text size overlap = Some chunks ->
    In c chunks ->
    c <> [] /\ strip c = c /\ substring c text.
Proof.
  intros fuel text size overlap chunks c Hr Hin.
  pose proof (chunk_text_Forall
                (fun c => strip c = c /\ substring c text) (fun _ => True)
                fuel text size overlap chunks I (fun _ _ => I)) as Hall.
  rewrite Forall_forall in Hall.
  destruct (Hall (fun s _ => conj (strip_strip _)
                   (substring_trans _ _ _ (strip_substring _)
                      (py_slice_substring text s (s + size)))) Hr c Hin)
    as [[Hs Hsub] Hne].
  auto.
Qed.

Lemma chunk_text_chunks_clean_witness :
  chunk_text 9 (py "  ab   cd ") 4 1 = Some [py "ab"; py "b"; py "cd"] /\
  In (py "cd") [py "ab"; py "b"; py "cd"] /\
  substring (py "cd") (py "  ab   cd ").
Proof.
  assert (Hr : chunk_text 9 (py "  ab   cd ") 4 1 = Some [py "ab"; py "b"; py "cd"])
    by (vm_compute; reflexivity).
  assert (Hin : In (py "cd") [py "ab"; py "b"; py "cd"]) by (right; right; left; reflexivity).
  split; [exact Hr|]. split; [exact Hin|].
  exact (proj2 (proj2 (chunk_text_chunks_clean 9 (py "  ab   cd ") 4 1
                         [py "ab"; py "b"; py "cd"] (py "cd") Hr Hin))).
Defined.

(** X3: with a chunk size that is not negative and an overlap smaller
    than it, no chunk is longer than the chunk size. *)
Theorem chunk_text_chunk_length :
  forall (fuel : nat) (text : str) (size overlap : Z) (chunks : list str)
         (c : str),
    (0 <= size)%Z -> (overlap < size)%Z ->
    chunk_text fuel text size overlap = Some chunks ->
    In c chunks ->
    (len c <= size)%Z.
Proof.
  intros fuel text size overlap chunks c Hz Hlt Hr Hin.
  pose proof (chunk_text_Forall
                (fun c => (len c <= size)%Z) (fun s => (0 <= s)%Z)
                fuel text size overlap chunks) as Hall.
  rewrite Forall_forall in Hall.
  apply (Hall ltac:(lia) ltac:(intros; lia)); try assumption.
  intros s Hs.
  pose proof (py_slice_length text s size Hs Hz) as Hl.
  pose proof (substring_length _ _
                (strip_substring (py_slice text s (s + size)))) as Hsub.
  unfold len in *. lia.
Qed.

Lemma chunk_text_chunk_length_witness :
  (0 <= 4)%Z /\ (1 < 4)%Z /\ (len (py "cd") <= 4)%Z.
Proof.
  assert (Hr : chunk_text 9 (py "  ab   cd ") 4 1 = Some [py "ab"; py "b"; py "cd"])
    by (vm_compute; reflexivity).
  assert (Hin : In (py "cd") [py "ab"; py "b"; py "cd"]) by (right; right; left; reflexivity).
  assert (H0 : (0 <= 4)%Z) by lia.
  assert (H1 : (1 < 4)%Z) by lia.
  split; [exact H0|]. split; [exact H1|].
  exact (chunk_text_chunk_length 9 (py "  ab   cd ") 4 1
           [py "ab"; py "b"; py "cd"] (py "cd") H0 H1 Hr Hin).
Defined.

Lemma py_slice_nth text start size p :
  (0 <= start)%Z -> (start <= Z.of_nat p)%Z -> (Z.of_nat p < start + size)%Z ->
  (p < length text)%nat ->
  nth_error (py_slice text start (start + size)) (p - Z.to_nat start)
  = nth_error text p.
Proof.
  intros H0 Hlo Hhi Hp. unfold py_slice, slice_index, len.
  destruct (Z.ltb_spec start 0); [lia|].
  destruct (Z.ltb_spec (start + size) 0); [lia|].
  rewrite nth_error_firstn, nth_error_skipn.
  destruct (Nat.ltb_spec (p - Z.to_nat start)
              (Z.to_nat (Z.min (start + size) (Z.of_nat (length text))
                         - Z.min start (Z.of_nat (length text))))); [|lia].
  f_equal. lia.
Qed.

Lemma chunk_loop_windows text size overlap :
  (overlap < size)%Z ->
  chunk_loop (S (length text)) text size overlap 0 [] =
  Some (map (fun start => strip (window text size start))
            (window_starts (len text) size overlap)).
Proof.
  intros Hlt.
  pose proof (window_count_le_len text size overlap Hlt) as Hle.
  rewrite (chunk_loop_runs text size overlap Hlt
             (window_count (len text) size overlap));
    [|apply iterations_left_0|lia].
  simpl. unfold window_starts. now rewrite map_map.
Qed.

(** X4: with an overlap that is not negative and smaller than the
    chunk size, the windows the loop cuts leave no character out:
    every position of the text lies in one of them, at the place
    where the window holds the character of that position. *)
Theorem chunk_windows_cover :
  forall (text : str) (size overlap : Z) (p : nat),
    (0 <= overlap)%Z -> (overlap < size)%Z -> (p < length text)%nat ->
    chunk_loop (S (length text)) text size overlap 0 [] =
      Some (map (fun start => strip (py_slice text start (start + size)))
                (window_starts (len text) size overlap)) /\
    exists start,
      In start (window_starts (len text) size overlap) /\
      (start <= Z.of_nat p < start + size)%Z /\
      nth_error (py_slice text start (start + size)) (p - Z.to_nat start)
      = nth_error text p.
Proof.
  intros text size overlap p H0 Hlt Hp.
  split; [now apply chunk_loop_windows|].
  set (step := (size - overlap)%Z).
  assert (Hstep : (0 < step)%Z) by (subst step; lia).
  set (i := (Z.of_nat p / step)%Z).
  assert (Hi : (0 <= i)%Z) by (apply Z.div_pos; lia).
  pose proof (Z.mul_div_le (Z.of_nat p) step Hstep) as Hle.
  pose proof (Z.mul_succ_div_gt (Z.of_nat p) step Hstep) as Hgt.
  fold i in Hle, Hgt.
  exists (i * step)%Z.
  assert (Hin : nth_error (window_starts (len text) size overlap) (Z.to_nat i)
                = Some (i * step)%Z).
  { apply (window_starts_nth size overlap Hlt). fold step.
    rewrite Z2Nat.id by assumption. split; [reflexivity|]. unfold len. lia. }
  split; [exact (nth_error_In _ _ Hin)|].
  assert (Hr : (i * step <= Z.of_nat p < i * step + size)%Z)
    by (subst step; lia).
  split; [exact Hr|].
  apply py_slice_nth; lia.
Qed.

Lemma chunk_windows_cover_witness :
  (0 <= 1)%Z /\ (1 < 4)%Z /\ (8 < length (py "  ab   cd "))%nat /\
  exists start,
    In start (window_starts (len (py "  ab   cd ")) 4 1) /\
    (start <= Z.of_nat 8 < start + 4)%Z /\
    nth_error (py_slice (py "  ab   cd ") start (start + 4))
              (8 - Z.to_nat start)
    = nth_error (py "  ab   cd ") 8.
Proof.
  assert (H0 : (0 <= 1)%Z) by lia.
  assert (H1 : (1 < 4)%Z) by lia.
  assert (Hp : (8 < length (py "  ab   cd "))%nat) by (simpl; lia).
  split; [exact H0|]. split; [exact H1|]. split; [exact Hp|].
  exact (proj2 (chunk_windows_cover (py "  ab   cd ") 4 1 8 H0 H1 Hp)).
Defined.

(** ** More on splitting *)

Lemma strip_prefix_app sep s rest :
  strip_prefix sep s = Some rest -> s = sep ++ rest.
Proof.
  revert s. induction sep as [|x sep IH]; intros s Hs.
  - simpl in Hs. now injection Hs as ->.
  - destruct s as [|y s]; [discriminate|]. simpl in Hs.
    destruct (N.eqb_spec x y) as [->|]; [|discriminate].
    simpl. f_equal. now apply IH.
Qed.

Lemma partition_app sep s a b :
  partition sep s = Some (a, b) -> s = a ++ sep ++ b.
Proof.
  revert a b. induction s as [|c s IH]; intros a b Hp.
  - simpl in Hp. destruct (strip_prefix sep []) as [rest|] eqn:E;
      [|discriminate].
    injection Hp as <- <-. simpl. now apply strip_prefix_app.
  - simpl in Hp. destruct (strip_prefix sep (c :: s)) as [rest|] eqn:E.
    + injection Hp as <- <-. simpl. now apply strip_prefix_app.
    + destruct (partition sep s) as [[a' b']|]; [|discriminate].
      injection Hp as <- <-. simpl. f_equal. now apply IH.
Qed.

Lemma join_cons sep a l : l <> [] -> join sep (a :: l) = a ++ sep ++ join sep l.
Proof. destruct l; [congruence|reflexivity]. Qed.

Lemma join_split_rounds sep n : forall s, join sep (split_rounds n sep s) = s.
Proof.
  induction n as [|n IH]; intros s; [reflexivity|].
  simpl. destruct (partition sep s) as [[a rest]|] eqn:E; [|reflexivity].
  rewrite join_cons by apply split_rounds_nonempty.
  rewrite IH. symmetry. now apply partition_app.
Qed.

Lemma split_parts_substring sep n : forall s p,
  In p (split_rounds n sep s) -> substring p s.
Proof.
  induction n as [|n IH]; intros s p Hin.
  - destruct Hin as [<-|[]]. exists [], []. now rewrite app_nil_r.
  - simpl in Hin. destruct (partition sep s) as [[a rest]|] eqn:E.
    + apply partition_app in E. destruct Hin as [<-|Hin].
      * exists [], (sep ++ rest). exact E.
      * destruct (IH _ _ Hin) as [u [v Hr]].
        exists (a ++ sep ++ u), v. rewrite E, Hr.
        now rewrite <- !app_assoc.
    + destruct Hin as [<-|[]]. exists [], []. now rewrite app_nil_r.
Qed.

Lemma substring_not_in (c : char) a b : substring a b -> ~ In c b -> ~ In c a.
Proof.
  intros [u [v ->]] Hn Hin. apply Hn.
  apply in_or_app. right. apply in_or_app. now left.
Qed.

Lemma strip_prefix_self sep r : strip_prefix sep (sep ++ r) = Some r.
Proof.
  induction sep as [|x sep IH]; simpl; [reflexivity|].
  now rewrite N.eqb_refl.
Qed.

Lemma contains_nil sep : sep <> [] -> contains sep [] = false.
Proof. destruct sep; [congruence|reflexivity]. Qed.

(** The text before the first occurrence of a separator has no
    occurrence of it. *)
Lemma partition_before_clean sep : sep <> [] -> forall s a b,
  partition sep s = Some (a, b) -> contains sep a = false.
Proof.
  intros Hsep. induction s as [|c s IH]; intros a b Hp.
  - simpl in Hp. destruct (strip_prefix sep []); [|discriminate].
    injection Hp as <- _. now apply contains_nil.
  - simpl in Hp. destruct (strip_prefix sep (c :: s)) as [r|] eqn:E.
    + injection Hp as <- _. now apply contains_nil.
    + destruct (partition sep s) as [[a' b']|] eqn:Ep; [|discriminate].
      injection Hp as <- <-.
      pose proof (IH _ _ eq_refl) as Hc.
      apply partition_app in Ep.
      unfold contains in *. simpl.
      destruct (strip_prefix sep (c :: a')) as [r|] eqn:E'.
      * apply strip_prefix_app in E'.
        rewrite Ep, app_comm_cons, E', <- app_assoc in E.
        now rewrite strip_prefix_self in E.
      * destruct (partition sep a'); [discriminate|reflexivity].
Qed.

Lemma split_rounds_clean sep : sep <> [] -> forall n s,
  (length s <= n)%nat ->
  Forall (fun p => contains sep p = false) (split_rounds n sep s).
Proof.
  intros Hsep. induction n as [|n IH]; intros s Hn.
  - destruct s; [|simpl in Hn; lia]. constructor; [|constructor].
    now apply contains_nil.
  - simpl. destruct (partition sep s) as [[a rest]|] eqn:E.
    + constructor; [exact (partition_before_clean sep Hsep _ _ _ E)|].
      apply IH. apply partition_app in E.
      apply (f_equal (@length char)) in E. rewrite !length_app in E.
      destruct sep; [congruence|]. simpl in E. lia.
    + constructor; [|constructor]. unfold contains. now rewrite E.
Qed.

(** X5: an entry of [extract_pipe_delimited] comes from one line of
    the text, cut at every [ | ]: the stripped line is its parts put
    together again with [ | ] between them, there are at least two
    parts and none contains [ | ], and the thinker, the content and
    the topic of the entry are the first, the second and the third
    part, stripped; the topic is null when there are two parts only. *)
Theorem pipe_line_split_join :
  forall (text : str) (e : entry),
    In e (extract_pipe_delimited text) ->
    exists line p0 p1 rest,
      In line (split NL text) /\
      pipe_line [] line = [e] /\
      strip line = join DELIM (p0 :: p1 :: rest) /\
      Forall (fun p => contains DELIM p = false) (p0 :: p1 :: rest) /\
      thinker e = strip p0 /\
      content e = strip p1 /\
      topic e = match rest with
                | [] => None
                | p2 :: _ => Some (strip p2)
                end.
Proof.
  intros text e Hin.
  unfold extract_pipe_delimited in Hin. rewrite fold_pipe_line in Hin.
  simpl in Hin. apply in_flat_map in Hin. destruct Hin as [line [Hline He]].
  assert (Hq : strip line <> [] /\ contains DELIM (strip line) = true).
  { unfold pipe_line in He.
    destruct (strip line) as [|c r]; [destruct He|].
    split; [discriminate|].
    destruct (contains DELIM (c :: r)); [reflexivity|].
    simpl in He. destruct He. }
  destruct (pipe_line_qualifying line (proj1 Hq) (proj2 Hq))
    as [p0 [p1 [rest [Hs [_ [_ Hp]]]]]].
  rewrite Hp in He. destruct He as [<-|[]].
  exists line, p0, p1, rest.
  split; [exact Hline|]. split; [exact Hp|]. split; [|split].
  - rewrite <- Hs. symmetry. apply join_split_rounds.
  - rewrite <- Hs. apply split_rounds_clean; [discriminate|apply Nat.le_refl].
  - repeat split.
Qed.

Lemma pipe_line_split_join_witness :
  In {| thinker := py "kant"; content := py "duty"; topic := Some (py "ethics") |}
     (extract_pipe_delimited
        (py "no bar here" ++ NL ++ py "  kant |  duty | ethics | more  ")) /\
  exists line p0 p1 rest,
    In line (split NL (py "no bar here" ++ NL ++
                       py "  kant |  duty | ethics | more  ")) /\
    strip line = join DELIM (p0 :: p1 :: rest) /\
    py "kant" = strip p0 /\ py "duty" = strip p1.
Proof.
  assert (Hin :
    In {| thinker := py "kant"; content := py "duty";
          topic := Some (py "ethics") |}
       (extract_pipe_delimited
          (py "no bar here" ++ NL ++ py "  kant |  duty | ethics | more  ")))
    by (vm_compute; left; reflexivity).
  split; [exact Hin|].
  destruct (pipe_line_split_join _ _ Hin)
    as [line [p0 [p1 [rest [Hl [_ [Hj [_ [H0 [H1 _]]]]]]]]]].
  exists line, p0, p1, rest. repeat split; assumption.
Defined.

(** ** Lines *)

Lemma fields_nonempty c s : fields c s <> [].
Proof.
  destruct s as [|x s]; simpl; [discriminate|].
  destruct (N.eqb x c); [discriminate|].
  destruct (fields c s); discriminate.
Qed.

Lemma fields_none c s : ~ In c s -> fields c s = [s].
Proof.
  induction s as [|x s IH]; intros Hn; [reflexivity|].
  simpl. destruct (N.eqb_spec x c) as [->|Hne].
  - exfalso. apply Hn. now left.
  - rewrite IH; [reflexivity|]. intros Hin. apply Hn. now right.
Qed.

Lemma fields_cut c s :
  In c s -> fields c s = before_first c s :: fields c (after_first c s).
Proof.
  induction s as [|x s IH]; intros Hin; [destruct Hin|].
  simpl. destruct (N.eqb_spec x c) as [->|Hne]; [reflexivity|].
  rewrite IH; [reflexivity|]. destruct Hin; congruence.
Qed.

Lemma after_first_length c s :
  In c s -> (length (after_first c s) < length s)%nat.
Proof.
  induction s as [|x s IH]; intros Hin; [destruct Hin|].
  simpl. destruct (N.eqb_spec x c) as [->|Hne]; [lia|].
  assert (In c s) by (destruct Hin; congruence).
  specialize (IH H). lia.
Qed.

Lemma split_rounds_fields c n : forall s,
  (length s <= n)%nat -> split_rounds n [c] s = fields c s.
Proof.
  induction n as [|n IH]; intros s Hn.
  - destruct s; [reflexivity|simpl in Hn; lia].
  - simpl. destruct (In_dec_char c s) as [Hin|Hno].
    + rewrite partition_char_Some, fields_cut by assumption.
      f_equal. apply IH.
      pose proof (after_first_length c s Hin). lia.
    + rewrite partition_char_None, fields_none by assumption. reflexivity.
Qed.

Lemma split_char_fields c s : split [c] s = fields c s.
Proof. unfold split. now apply split_rounds_fields. Qed.

Lemma fields_app c a b : fields c (a ++ c :: b) = fields c a ++ fields c b.
Proof.
  induction a as [|x a IH]; simpl.
  - now rewrite N.eqb_refl.
  - destruct (N.eqb x c); [now rewrite IH|].
    rewrite IH. destruct (fields c a) as [|f fs] eqn:E;
      [now apply fields_nonempty in E|reflexivity].
Qed.

Lemma fields_no_sep c s l : In l (fields c s) -> ~ In c l.
Proof.
  revert l. induction s as [|x s IH]; intros l Hin.
  - destruct Hin as [<-|[]]. intros [].
  - simpl in Hin. destruct (N.eqb_spec x c) as [->|Hne].
    + destruct Hin as [<-|Hin]; [intros []|now apply IH].
    + destruct (fields c s) as [|f fs] eqn:E.
      * destruct Hin as [<-|[]]. intros [H|[]]. congruence.
      * destruct Hin as [<-|Hin].
        -- intros [H|H]; [congruence|].
           revert H. apply IH. now left.
        -- apply IH. now right.
Qed.

(** X6: the extractor works line by line: the entries of two texts
    put together with a newline between them are the entries of the
    first followed by the entries of the second. *)
Theorem extract_pipe_delimited_app :
  forall a b : str,
    extract_pipe_delimited (a ++ NL ++ b) =
    extract_pipe_delimited a ++ extract_pipe_delimited b.
Proof.
  intros a b. unfold extract_pipe_delimited.
  rewrite !fold_pipe_line. simpl app.
  unfold NL. rewrite !split_char_fields.
  change ([10%N] ++ b) with (10%N :: b).
  rewrite fields_app. apply flat_map_app.
Qed.

(** The entry of a line, field by field. *)
Lemma pipe_line_entry line e :
  In e (pipe_line [] line) ->
  exists p0 p1,
    In p0 (split DELIM (strip line)) /\ In p1 (split DELIM (strip line)) /\
    thinker e = strip p0 /\ content e = strip p1 /\
    (topic e = None \/
     exists p2, In p2 (split DELIM (strip line)) /\ topic e = Some (strip p2)).
Proof.
  unfold pipe_line. intros Hin.
  destruct (negb (nonempty (strip line)) || negb (contains DELIM (strip line)));
    [destruct Hin|].
  destruct (split DELIM (strip line)) as [|p0 [|p1 [|p2 rest]]];
    simpl in Hin; try (destruct Hin; fail); destruct Hin as [<-|[]]; simpl.
  - exists p0, p1. repeat split; auto.
  - exists p0, p1. repeat split; auto.
    right. exists p2. split; [|reflexivity]. right. right. now left.
Qed.

(** X7: every field of every entry is stripped, and none contains a
    newline: an entry never runs over two lines. *)
Theorem pipe_fields_stripped :
  forall (text : str) (e : entry),
    In e (extract_pipe_delimited text) ->
    (strip (thinker e) = thinker e /\ ~ In 10%N (thinker e)) /\
    (strip (content e) = content e /\ ~ In 10%N (content e)) /\
    (forall t, topic e = Some t -> strip t = t /\ ~ In 10%N t).
Proof.
  intros text e Hin.
  unfold extract_pipe_delimited in Hin. rewrite fold_pipe_line in Hin.
  simpl in Hin. apply in_flat_map in Hin. destruct Hin as [line [Hline He]].
  unfold NL in Hline. rewrite split_char_fields in Hline.
  apply fields_no_sep in Hline.
  assert (Hpart : forall p, In p (split DELIM (strip line)) ->
                            strip (strip p) = strip p /\ ~ In 10%N (strip p)).
  { intros p Hp. split; [apply strip_strip|].
    apply (substring_not_in _ _ line); [|assumption].
    apply (substring_trans _ p); [apply strip_substring|].
    apply (substring_trans _ (strip line)); [|apply strip_substring].
    exact (split_parts_substring _ _ _ _ Hp). }
  destruct (pipe_line_entry line e He)
    as [p0 [p1 [H0 [H1 [-> [-> Ht]]]]]].
  split; [now apply Hpart|]. split; [now apply Hpart|].
  intros t Heq. destruct Ht as [Hnone|[p2 [H2 Hsome]]]; [congruence|].
  rewrite Hsome in Heq. injection Heq as <-. now apply Hpart.
Qed.

Lemma pipe_fields_stripped_witness :
  In {| thinker := py "kant"; content := py "duty is categorical";
        topic := None |}
     (extract_pipe_delimited (py "kant | duty is categorical")) /\
  strip (py "duty is categorical") = py "duty is categorical".
Proof.
  assert (Hin : In {| thinker := py "kant";
                      content := py "duty is categorical"; topic := None |}
                   (extract_pipe_delimited (py "kant | duty is categorical")))
    by (vm_compute; left; reflexivity).
  split; [exact Hin|].
  exact (proj1 (proj1 (proj2 (pipe_fields_stripped
                                (py "kant | duty is categorical") _ Hin)))).
Defined.

(** ** More on the argument extractor *)

Section ArgumentsMore.
Context `{Unicode}.

Lemma match_here_header_empty prev : match_here HEADER_RE prev [] = None.
Proof. reflexivity. Qed.

Lemma match_here_header_other prev c s :
  c <> 35%N -> match_here HEADER_RE prev (c :: s) = None.
Proof.
  intros Hc. unfold match_here, HEADER_RE. cbn.
  destruct (N.eqb_spec c 35); [contradiction|reflexivity].
Qed.

Lemma scan_header_none s : forall prev,
  ~ In 35%N s -> scan HEADER_RE prev s = None.
Proof.
  induction s as [|c s IH]; intros prev Hn.
  - cbn [scan]. now rewrite match_here_header_empty.
  - cbn [scan]. rewrite match_here_header_other.
    + rewrite IH; [reflexivity|]. intros Hin. apply Hn. now right.
    + intros ->. apply Hn. now left.
Qed.

End ArgumentsMore.

(** X8: a text with no [#] has no argument header, and
    [extract_arguments] returns nothing for it; in particular for the
    empty text. *)
Theorem extract_arguments_no_header :
  forall (U : Unicode) (text : str),
    ~ In 35%N text -> extract_arguments text = Ok [].
Proof.
  intros U text Hn. unfold extract_arguments, re_split.
  destruct (length text); simpl; [reflexivity|].
  now rewrite scan_header_none.
Qed.

Lemma extract_arguments_no_header_witness :
  ~ In 35%N (py "**Premises:** - a") /\
  @extract_arguments basic_latin (py "**Premises:** - a") = Ok [].
Proof.
  assert (Hn : ~ In 35%N (py "**Premises:** - a"))
    by (simpl; intuition discriminate).
  split; [exact Hn|].
  exact (extract_arguments_no_header basic_latin _ Hn).
Defined.

(** X9: every entry of [extract_arguments] is complete: it has at
    least one premise, no premise is empty, its conclusion is not
    empty, and premises, conclusion and topic are stripped. *)
Theorem extract_arguments_entries_complete :
  forall (U : Unicode) (text : str) (e : argument),
    In e (entries_of (extract_arguments text)) ->
    premises e <> [] /\
    (forall p, In p (premises e) -> p <> [] /\ strip p = p) /\
    conclusion e <> [] /\
    strip (conclusion e) = conclusion e /\
    (forall t, arg_topic e = Some t -> strip t = t).
Proof.
  intros U text e Hin.
  destruct (extract_arguments text) as [entries|e'] eqn:Ex; [|destruct Hin].
  destruct (in_extract_arguments text entries e Ex Hin)
    as [type [block [tail [Hr He]]]].
  unfold argument_round in Hr.
  destruct (block_importance block) as [v|e']; [|discriminate].
  injection Hr as <-.
  destruct (block_premises block) as [|p0 ps] eqn:Ep;
    [destruct He|].
  destruct (block_conclusion block) as [|c0 cs] eqn:Ec;
    [destruct He|].
  destruct He as [<-|[]]. cbn [premises conclusion arg_topic].
  split; [discriminate|]. split; [|split; [discriminate|split]].
  - intros p Hp. rewrite <- Ep in Hp. unfold block_premises in Hp.
    destruct (re_search PREMISES_RE block); [|destruct Hp].
    apply in_map_iff in Hp. destruct Hp as [x [<- Hx]].
    apply filter_In in Hx. destruct Hx as [_ Hne].
    split; [|apply strip_strip]. intros Heq. now rewrite Heq in Hne.
  - rewrite <- Ec. unfold block_conclusion.
    destruct (re_search CONCLUSION_RE block); [apply strip_strip|reflexivity].
  - intros t Ht. unfold block_topic in Ht.
    destruct (re_search SOURCE_RE block); [|discriminate].
    injection Ht as <-. apply strip_strip.
Qed.

Lemma extract_arguments_entries_complete_witness :
  In {| arg_thinker := None;
        argument_type := py "inductive";
        premises := [py "the sun rose yesterday"];
        conclusion := py "the sun rises";
        arg_topic := None;
        importance := 5 |}
     (entries_of (@extract_arguments basic_latin sample_anonymous)) /\
  [py "the sun rose yesterday"] <> [].
Proof.
  assert (Hin : In {| arg_thinker := None;
                      argument_type := py "inductive";
                      premises := [py "the sun rose yesterday"];
                      conclusion := py "the sun rises";
                      arg_topic := None;
                      importance := 5 |}
                   (entries_of
                      (@extract_arguments basic_latin sample_anonymous)))
    by (vm_compute; left; reflexivity).
  split; [exact Hin|].
  exact (proj1 (extract_arguments_entries_complete basic_latin
                  sample_anonymous _ Hin)).
Defined.

(** ** The rows of each kind of file *)

Section Rows.
Context `{Unicode} `{Database}.

Lemma pipe_thinker_own text e thinker_from_filename :
  In e (extract_pipe_delimited text) ->
  entry_thinker e thinker_from_filename = thinker e.
Proof.
  intros Hin. unfold extract_pipe_delimited in Hin.
  rewrite fold_pipe_line in Hin. simpl in Hin.
  apply in_flat_map in Hin. destruct Hin as [line [_ He]].
  assert (Hne : thinker e <> []).
  { destruct (strip line) as [|c r] eqn:E.
    - unfold pipe_line in He. rewrite E in He. destruct He.
    - destruct (contains DELIM (strip line)) eqn:Hc.
      + destruct (pipe_line_qualifying line)
          as [p0 [p1 [rest [_ [_ [H0' Hp]]]]]]; [congruence|assumption|].
        rewrite Hp in He. destruct He as [<-|[]]. exact H0'.
      + unfold pipe_line in He. rewrite Hc in He.
        rewrite orb_true_r in He. destruct He. }
  unfold entry_thinker, py_or. destruct (thinker e); congruence.
Qed.

Lemma ingest_positions_file_rows filename w tff text :
  parse_filename filename = Ok tff ->
  lookup filename (files w) = Some (Valid text) ->
  let out := ingest_positions_file filename w in
  exists evs n,
    trace (snd out) = trace w ++ evs /\
    executed evs =
      firstn n (rows_from tbl_positions (pipe_row tff) (clock w)
                          (extract_pipe_delimited text)) /\
    (fst out = Ok tt ->
     executed evs = rows_from tbl_positions (pipe_row tff) (clock w)
                              (extract_pipe_delimited text)) /\
    (In Commit evs ->
     executed evs = rows_from tbl_positions (pipe_row tff) (clock w)
                              (extract_pipe_delimited text)).
Proof.
  intros Hp Hl out. subst out. unfold ingest_positions_file.
  rewrite run_print, Hp, run_lift_ok, run_print.
  rewrite (run_read_valid _ _ text) by exact Hl.
  cbv zeta. rewrite run_print.
  match goal with |- context [bind (for_each ?l ?body) ?k ?w3] =>
    change (bind (for_each l body) k w3)
      with (bind (insert_all tbl_positions (pipe_row tff) l) k w3);
    destruct (insert_commit_rows tbl_positions (pipe_row tff) l filename
                (Inserted Positions (length l)) (Deleted filename) w3)
      as [evs [n [Ht [He [Hok Hco]]]]]
  end.
  cbn [record clock trace] in Ht, He, Hok, Hco.
  rewrite <- !app_assoc in Ht.
  eexists. exists n. split; [exact Ht|]. split; [exact He|].
  split; [exact Hok|]. intros Hin. apply Hco. simpl in Hin.
  repeat (destruct Hin as [Hin|Hin]; [discriminate|]). exact Hin.
Qed.

Lemma ingest_quotes_file_rows filename w tff text :
  parse_filename filename = Ok tff ->
  lookup filename (files w) = Some (Valid text) ->
  let out := ingest_quotes_file filename w in
  exists evs n,
    trace (snd out) = trace w ++ evs /\
    executed evs =
      firstn n (rows_from tbl_quotes (pipe_row tff) (clock w)
                          (extract_pipe_delimited text)) /\
    (fst out = Ok tt ->
     executed evs = rows_from tbl_quotes (pipe_row tff) (clock w)
                              (extract_pipe_delimited text)) /\
    (In Commit evs ->
     executed evs = rows_from tbl_quotes (pipe_row tff) (clock w)
                              (extract_pipe_delimited text)).
Proof.
  intros Hp Hl out. subst out. unfold ingest_quotes_file.
  rewrite run_print, Hp, run_lift_ok, run_print.
  rewrite (run_read_valid _ _ text) by exact Hl.
  cbv zeta. rewrite run_print.
  match goal with |- context [bind (for_each ?l ?body) ?k ?w3] =>
    change (bind (for_each l body) k w3)
      with (bind (insert_all tbl_quotes (pipe_row tff) l) k w3);
    destruct (insert_commit_rows tbl_quotes (pipe_row tff) l filename
                (Inserted Quotes (length l)) (Deleted filename) w3)
      as [evs [n [Ht [He [Hok Hco]]]]]
  end.
  cbn [record clock trace] in Ht, He, Hok, Hco.
  rewrite <- !app_assoc in Ht.
  eexists. exists n. split; [exact Ht|]. split; [exact He|].
  split; [exact Hok|]. intros Hin. apply Hco. simpl in Hin.
  repeat (destruct Hin as [Hin|Hin]; [discriminate|]). exact Hin.
Qed.
End Rows.

(** X10: a positions or quotes file whose name parses and whose text
    decodes inserts, into its own table and in the order of the lines,
    one row per entry made of the entry's own thinker, its content and
    its topic, up to the first row the database refuses; when the
    routine returns, every entry has its row and these rows are the
    ones committed. *)
Theorem pipe_file_rows :
  forall (U : Unicode) (D : Database) (filename : str) (w : world)
         (thinker_from_filename text : str),
    get_file_type filename = Positions \/ get_file_type filename = Quotes ->
    parse_filename filename = Ok thinker_from_filename ->
    lookup filename (files w) = Some (Valid text) ->
    let entries := extract_pipe_delimited text in
    let rows := rows_from (pipe_table (get_file_type filename))
                          (pipe_row thinker_from_filename) (clock w) entries in
    (forall k e, nth_error entries k = Some e ->
       nth_error rows k =
       Some (pipe_table (get_file_type filename),
             [Text (thinker e); Text (content e); opt_text (topic e);
              Time (clock w + k)])) /\
    exists evs n,
      trace (snd (ingest_file filename w)) = trace w ++ evs /\
      executed evs = firstn n rows /\
      (fst (ingest_file filename w) = Ok tt ->
       executed evs = rows /\
       committed (snd (ingest_file filename w)) =
         committed w ++ pending w ++ rows).
Proof.
  intros U D filename w tff text Hty Hp Hl entries rows. split.
  - intros k e Hk. subst rows.
    rewrite (nth_error_rows_from _ _ _ _ k e Hk). unfold pipe_row.
    rewrite (pipe_thinker_own text e tff); [reflexivity|].
    exact (nth_error_In _ _ Hk).
  - subst rows entries. unfold ingest_file.
    destruct Hty as [Hty|Hty]; rewrite Hty; cbn [pipe_table].
    + destruct (ingest_positions_file_rows filename w tff text Hp Hl)
        as [evs [n [Ht [He [Hok _]]]]].
      exists evs, n. split; [exact Ht|]. split; [exact He|].
      intros Hr. split; [now apply Hok|].
      rewrite <- (Hok Hr).
      exact (proj1 (committed_of_return filename _ w evs
                      (ingest_positions_file_spec filename) Ht Hr)).
    + destruct (ingest_quotes_file_rows filename w tff text Hp Hl)
        as [evs [n [Ht [He [Hok _]]]]].
      exists evs, n. split; [exact Ht|]. split; [exact He|].
      intros Hr. split; [now apply Hok|].
      rewrite <- (Hok Hr).
      exact (proj1 (committed_of_return filename _ w evs
                      (ingest_quotes_file_spec filename) Ht Hr)).
Qed.

Lemma pipe_file_rows_witness :
  committed (snd (@ingest_file basic_latin refuses_spinoza
                    (py "kant_positions_1.txt") (empty_world sample_folder)))
  = [ (tbl_positions,
       [Text (py "immanuel"); Text (py "duty is categorical");
        Text (py "ethics"); Time 0]) ].
Proof.
  destruct (pipe_file_rows basic_latin refuses_spinoza
              (py "kant_positions_1.txt") (empty_world sample_folder)
              (py "kant") (py "immanuel | duty is categorical | ethics")
              ltac:(left; vm_compute; reflexivity)
              ltac:(vm_compute; reflexivity)
              ltac:(vm_compute; reflexivity))
    as [_ [evs [n [_ [_ Hok]]]]].
  destruct (Hok ltac:(vm_compute; reflexivity)) as [_ Hco].
  rewrite Hco. vm_compute. reflexivity.
Defined.

Section MoreRows.
Context `{Unicode} `{Database}.

Lemma chunk_text_default_windows_eq text :
  chunk_text_default text =
  filter nonempty
    (map (fun start => strip (py_slice text start (start + 1000)))
         (window_starts (len text) 1000 100)).
Proof.
  unfold chunk_text_default, CHUNK_SIZE, CHUNK_OVERLAP.
  pose proof (window_count_le_len text 1000 100 ltac:(lia)).
  rewrite (chunk_text_runs text 1000 100) by lia. reflexivity.
Qed.

Lemma parsed_source_file filename thinker :
  parse_filename filename = Ok thinker ->
  (let name := item (rsplit1 DOT filename) 0 in
   let parts := split1 UNDERSCORE name in
   if (1 <? length parts)%nat then item parts 1 else name)
  = after_first 95 (remove_extension filename).
Proof.
  intros Hp. destruct (parse_filename_ok filename thinker Hp) as [Hin _].
  cbv zeta. rewrite rsplit1_dot_item0.
  unfold split1, UNDERSCORE. change (py "_") with [95%N].
  now rewrite partition_char_Some by assumption.
Qed.

Lemma ingest_chunks_file_rows filename w tff c :
  parse_filename filename = Ok tff ->
  lookup filename (files w) = Some c ->
  let rows := rows_from tbl_text_chunks
                (chunk_row tff (after_first 95 (remove_extension filename)))
                (clock w) (enumerate (chunk_text_default (decoded c))) in
  let out := ingest_chunks_file filename w in
  exists evs n,
    trace (snd out) = trace w ++ evs /\
    executed evs = firstn n rows /\
    (fst out = Ok tt -> executed evs = rows) /\
    (In Commit evs -> executed evs = rows).
Proof.
  intros Hp Hl rows out. subst out rows. unfold ingest_chunks_file.
  rewrite run_print, Hp, run_lift_ok.
  pose proof (parsed_source_file filename tff Hp) as Hsrc.
  cbv zeta in Hsrc |- *. rewrite Hsrc.
  rewrite run_print, run_print.
  rewrite (run_read_ignore _ c) by exact Hl.
  rewrite run_print.
  match goal with |- context [bind (for_each ?l ?body) ?k ?w3] =>
    replace (for_each l body)
      with (insert_all tbl_text_chunks
              (chunk_row tff (after_first 95 (remove_extension filename))) l)
      by (unfold insert_all; apply for_each_ext; intros [i ch]; reflexivity);
    destruct (insert_commit_rows tbl_text_chunks
                (chunk_row tff (after_first 95 (remove_extension filename)))
                l filename
                (Inserted Chunks (length (chunk_text_default (decoded c))))
                (Deleted filename) w3)
      as [evs [n [Ht [He [Hok Hco]]]]]
  end.
  cbn [record clock trace] in Ht, He, Hok, Hco.
  rewrite <- !app_assoc in Ht.
  eexists. exists n. split; [exact Ht|]. split; [exact He|].
  split; [exact Hok|]. intros Hin. apply Hco. simpl in Hin.
  repeat (destruct Hin as [Hin|Hin]; [discriminate|]). exact Hin.
Qed.
End MoreRows.

(** X11: a chunks-type file whose name parses inserts one row per
    chunk of its text (read with decoding errors ignored), in slicing
    order, where the chunks are the stripped, non-empty windows of
    1000 characters taken every 900, and the row of the chunk at
    position [k] has [chunk_index = k]: the indices are 0, 1, 2, ...
    without a gap.  The loop stops at the first row the database
    refuses; when the routine returns, every chunk has its row and the
    rows are the ones committed. *)
Theorem chunk_file_rows :
  forall (U : Unicode) (D : Database) (filename : str) (w : world)
         (thinker : str) (c : file_content),
    get_file_type filename = Chunks ->
    parse_filename filename = Ok thinker ->
    lookup filename (files w) = Some c ->
    let text := decoded c in
    let source_file := after_first 95 (remove_extension filename) in
    let chunks := chunk_text_default text in
    let rows := rows_from tbl_text_chunks (chunk_row thinker source_file)
                          (clock w) (enumerate chunks) in
    chunks = filter nonempty
               (map (fun start => strip (py_slice text start (start + 1000)))
                    (window_starts (len text) 1000 100)) /\
    (forall k ch, nth_error chunks k = Some ch ->
       nth_error rows k =
       Some (tbl_text_chunks,
             [Text thinker; Text source_file; Text ch; Int (Z.of_nat k);
              Time (clock w + k)])) /\
    exists evs n,
      trace (snd (ingest_file filename w)) = trace w ++ evs /\
      executed evs = firstn n rows /\
      (fst (ingest_file filename w) = Ok tt ->
       executed evs = rows /\
       committed (snd (ingest_file filename w)) =
         committed w ++ pending w ++ rows).
Proof.
  intros U D filename w tff c Hty Hp Hl text src chunks rows.
  split; [apply chunk_text_default_windows_eq|]. split.
  - intros k ch Hk. subst rows.
    now rewrite (nth_error_rows_from _ _ _ _ k (k, ch)
                   (nth_error_enumerate _ _ _ Hk)).
  - subst rows chunks src text. unfold ingest_file. rewrite Hty.
    destruct (ingest_chunks_file_rows filename w tff c Hp Hl)
      as [evs [n [Ht [He [Hok _]]]]].
    exists evs, n. split; [exact Ht|]. split; [exact He|].
    intros Hr. split; [now apply Hok|].
    rewrite <- (Hok Hr).
    exact (proj1 (committed_of_return filename _ w evs
                    (ingest_chunks_file_spec filename) Ht Hr)).
Qed.

Lemma chunk_file_rows_witness :
  committed (snd (@ingest_file basic_latin refuses_spinoza
                    (py "kant_notes_2.txt") (empty_world chunks_folder)))
  = [ (tbl_text_chunks,
       [Text (py "kant"); Text (py "notes_2");
        Text (py "the starry heavens above me"); Int 0; Time 0]) ].
Proof.
  destruct (chunk_file_rows basic_latin refuses_spinoza
              (py "kant_notes_2.txt") (empty_world chunks_folder)
              (py "kant") (Valid (py "  the starry heavens above me  "))
              ltac:(vm_compute; reflexivity)
              ltac:(vm_compute; reflexivity)
              ltac:(vm_compute; reflexivity))
    as [_ [_ [evs [n [_ [_ Hok]]]]]].
  destruct (Hok ltac:(vm_compute; reflexivity)) as [_ Hco].
  rewrite Hco. vm_compute. reflexivity.
Defined.

(** ** Works files *)

Lemma join_not_in (c : char) sep parts :
  ~ In c sep ->
  (forall p, In p parts -> ~ In c p) ->
  ~ In c (join sep parts).
Proof.
  intros Hsep. induction parts as [|p parts IH]; intros Hp; [intros []|].
  destruct parts as [|q parts]; [apply Hp; now left|].
  rewrite join_cons by discriminate. intros Hin.
  apply in_app_or in Hin. destruct Hin as [Hin|Hin].
  - revert Hin. apply Hp. now left.
  - apply in_app_or in Hin. destruct Hin as [Hin|Hin]; [contradiction|].
    revert Hin. apply IH. intros r Hr. apply Hp. now right.
Qed.

Lemma filter_none {A} (f : A -> bool) l :
  forallb f l = true -> filter (fun x => negb (f x)) l = [].
Proof.
  induction l as [|x l IH]; simpl; [reflexivity|].
  destruct (f x); simpl; [assumption|discriminate].
Qed.

Lemma filter_some {A} (f : A -> bool) l :
  forallb f l = false -> filter (fun x => negb (f x)) l <> [].
Proof.
  induction l as [|x l IH]; simpl; [discriminate|].
  destruct (f x); simpl; [assumption|discriminate].
Qed.

Lemma In_skipn {A} n (l : list A) x : In x (skipn n l) -> In x l.
Proof.
  intros Hin. rewrite <- (firstn_skipn n l). apply in_or_app. now right.
Qed.

(** X12: the title of a work.  When every token of the name after the
    second is a number, or there is none, as in [author_works_n.txt],
    the title is the whole name without its extension; otherwise it is
    made of the other tokens and contains no underscore. *)
Theorem works_title_tokens :
  forall (U : Unicode) (filename : str),
    let name := remove_extension filename in
    let tokens := skipn 2 (split UNDERSCORE name) in
    (forallb str_isdigit tokens = true -> works_title filename = name) /\
    (forallb str_isdigit tokens = false ->
     works_title filename
     = join (py " ") (filter (fun p => negb (str_isdigit p)) tokens) /\
     ~ In 95%N (works_title filename)).
Proof.
  intros U filename name tokens. subst name tokens.
  unfold works_title. rewrite rsplit1_dot_item0. cbv zeta. split.
  - intros Hall. now rewrite filter_none.
  - intros Hsome. apply filter_some in Hsome.
    destruct (filter _ _) as [|p ps] eqn:E; [congruence|].
    split; [reflexivity|].
    apply join_not_in; [simpl; intuition discriminate|].
    intros q Hq. rewrite <- E in Hq. apply filter_In in Hq.
    destruct Hq as [Hq _]. apply In_skipn in Hq.
    unfold UNDERSCORE in Hq. change (py "_") with [95%N] in Hq.
    rewrite split_char_fields in Hq. now apply fields_no_sep in Hq.
Qed.

Lemma works_title_tokens_witness :
  forallb (@str_isdigit basic_latin)
    (skipn 2 (split UNDERSCORE (remove_extension (py "kant_works_1.txt"))))
  = true /\
  @works_title basic_latin (py "kant_works_1.txt") = py "kant_works_1".
Proof.
  assert (Hall : forallb (@str_isdigit basic_latin)
                   (skipn 2 (split UNDERSCORE
                               (remove_extension (py "kant_works_1.txt"))))
                 = true) by (vm_compute; reflexivity).
  split; [exact Hall|].
  rewrite (proj1 (works_title_tokens basic_latin (py "kant_works_1.txt")) Hall).
  vm_compute. reflexivity.
Defined.



(** ** Files that cannot be ingested *)

Section Refused.
Context `{Unicode} `{Database}.

Lemma parse_filename_no_underscore filename :
  ~ In 95%N (remove_extension filename) ->
  parse_filename filename = Raise (ValueError filename).
Proof.
  intros Hn. unfold parse_filename. rewrite rsplit1_dot_item0.
  destruct (contains UNDERSCORE (remove_extension filename)) eqn:E;
    [|reflexivity].
  apply contains_char in E. contradiction.
Qed.

Lemma ingest_file_starts filename w r :
  parse_filename filename = Raise r ->
  ingest_file filename w =
  (Raise r, record (Print (Processing (get_file_type filename) filename)) w).
Proof.
  intros Hp. unfold ingest_file.
  destruct (get_file_type filename);
    [unfold ingest_positions_file|unfold ingest_quotes_file
    |unfold ingest_works_file|unfold ingest_arguments_file
    |unfold ingest_chunks_file];
    rewrite run_print, Hp; reflexivity.
Qed.
End Refused.

(** X14: the underscore that [main] looks for may be in the extension
    only.  A file whose name without extension has no underscore is
    refused by every ingest routine before it is opened: the routine
    raises the [ValueError], and the round of the loop prints the
    error, rolls back and leaves the database and the folder as they
    were. *)
Theorem name_without_underscore :
  forall (U : Unicode) (D : Database) (filename : str) (w : world),
    ~ In 95%N (remove_extension filename) ->
    ingest_file filename w =
      (Raise (ValueError filename),
       record (Print (Processing (get_file_type filename) filename)) w) /\
    let w' := snd (process_file filename w) in
    trace w' = trace w ++
               [Print (Processing (get_file_type filename) filename);
                Print (Error (ValueError filename)); Rollback; Print Blank] /\
    committed w' = committed w /\
    pending w' = [] /\
    files w' = files w.
Proof.
  intros U D filename w Hn.
  pose proof (ingest_file_starts filename w _
                (parse_filename_no_underscore filename Hn)) as Hi.
  split; [exact Hi|].
  rewrite (process_file_raise filename w (ValueError filename))
    by now rewrite Hi.
  rewrite Hi. cbn. rewrite <- !app_assoc. auto.
Qed.

Lemma name_without_underscore_witness :
  In 95%N (py "notes.v_1") /\
  ~ In 95%N (remove_extension (py "notes.v_1")) /\
  @ingest_file basic_latin refuses_spinoza (py "notes.v_1")
    (empty_world [(py "notes.v_1", Valid (py "a | b"))]) =
  (Raise (ValueError (py "notes.v_1")),
   record (Print (Processing (@get_file_type basic_latin (py "notes.v_1"))
                    (py "notes.v_1")))
     (empty_world [(py "notes.v_1", Valid (py "a | b"))])).
Proof.
  assert (Hn : ~ In 95%N (remove_extension (py "notes.v_1")))
    by (vm_compute; intuition discriminate).
  split; [vm_compute; intuition|]. split; [exact Hn|].
  exact (proj1 (name_without_underscore basic_latin refuses_spinoza
                  (py "notes.v_1")
                  (empty_world [(py "notes.v_1", Valid (py "a | b"))]) Hn)).
Defined.

(** X15: a positions, quotes or arguments file whose bytes are not
    valid UTF-8 is not ingested: reading it raises after the two
    first lines are printed, before anything is inserted. *)
Theorem undecodable_strict :
  forall (U : Unicode) (D : Database) (filename : str) (w : world)
         (thinker ignoring : str),
    read_strictly (get_file_type filename) = true ->
    parse_filename filename = Ok thinker ->
    lookup filename (files w) = Some (Invalid ignoring) ->
    ingest_file filename w =
    (Raise (ReadError filename),
     record (Print (ThinkerFromFilename thinker))
       (record (Print (Processing (get_file_type filename) filename)) w)).
Proof.
  intros U D filename w tff t Hk Hp Hl. unfold ingest_file.
  destruct (get_file_type filename); try discriminate Hk;
    [unfold ingest_positions_file|unfold ingest_quotes_file
    |unfold ingest_arguments_file];
    rewrite run_print, Hp, run_lift_ok, run_print;
    unfold bind, read_file; cbn [record files]; rewrite Hl; reflexivity.
Qed.

Lemma undecodable_strict_witness :
  fst (@ingest_file basic_latin refuses_spinoza (py "hume_quotes_2.txt")
         (empty_world [(py "hume_quotes_2.txt", Invalid (py "a | b"))]))
  = Raise (ReadError (py "hume_quotes_2.txt")).
Proof.
  rewrite (undecodable_strict basic_latin refuses_spinoza
             (py "hume_quotes_2.txt")
             (empty_world [(py "hume_quotes_2.txt", Invalid (py "a | b"))])
             (py "hume") (py "a | b")
             ltac:(vm_compute; reflexivity)
             ltac:(vm_compute; reflexivity)
             ltac:(vm_compute; reflexivity)).
  reflexivity.
Defined.

(** ** Files with nothing to insert *)




(** ** The whole run *)

Lemma str_eqb_eq a b : str_eqb a b = true <-> a = b.
Proof.
  revert b. induction a as [|x a IH]; intros [|y b]; simpl;
    try (split; [discriminate|congruence]); [tauto|].
  rewrite andb_true_iff, N.eqb_eq, IH. split.
  - intros [-> ->]. reflexivity.
  - intros Heq. injection Heq as -> ->. auto.
Qed.

Lemma lookup_unlink_other filename name dir :
  name <> filename ->
  lookup name (unlink filename dir) = lookup name dir.
Proof.
  intros Hne. induction dir as [|[n c] dir IH]; simpl; [reflexivity|].
  destruct (str_eqb n filename) eqn:E; simpl.
  - apply str_eqb_eq in E. subst n.
    destruct (str_eqb filename name) eqn:E2; [|assumption].
    apply str_eqb_eq in E2. congruence.
  - now rewrite IH.
Qed.

Lemma only_ingested_refl w : only_ingested w w.
Proof.
  repeat split; auto. exists []. now rewrite app_nil_r.
Qed.

Lemma only_ingested_trans w1 w2 w3 :
  only_ingested w1 w2 -> only_ingested w2 w3 -> only_ingested w1 w3.
Proof.
  intros [[r1 H1] [F1 L1]] [[r2 H2] [F2 L2]]. repeat split.
  - exists (r1 ++ r2). rewrite H2, H1. now rewrite app_assoc.
  - auto.
  - intros name Hn. now rewrite L2, L1.
Qed.

Lemma only_ingested_record ev w : only_ingested w (record ev w).
Proof.
  repeat split; auto. exists []. simpl. now rewrite app_nil_r.
Qed.

Section Run.
Context `{Unicode} `{Database}.

Lemma process_file_only_ingested filename w :
  In 95%N filename ->
  only_ingested w (snd (process_file filename w)) /\
  pending (snd (process_file filename w)) = [].
Proof.
  intros Hu.
  destruct (process_file_outcome filename w) as [evs [Ht [_ Hpost]]].
  destruct (fst (ingest_file filename w)) as [[]|e].
  - destruct Hpost as [before [after [_ [_ [_ [_ [Hco [Hpe [Hfi _]]]]]]]]].
    split; [|assumption]. repeat split.
    + exists (pending w ++ executed evs). exact Hco.
    + intros f Hin. rewrite Hfi in Hin. unfold unlink in Hin.
      now apply filter_In in Hin.
    + intros name Hn. rewrite Hfi. apply lookup_unlink_other.
      intros ->. contradiction.
  - destruct Hpost as [_ [_ [_ [Hpe [Hfi Hco]]]]].
    split; [|assumption]. repeat split.
    + destruct Hco as [[_ Hco]|[_ [_ [_ Hco]]]].
      * exists []. now rewrite app_nil_r.
      * exists (pending w ++ executed evs). exact Hco.
    + intros f Hin. now rewrite Hfi in Hin.
    + intros name Hn. now rewrite Hfi.
Qed.

Lemma for_each_only_ingested names : forall w,
  (forall f, In f names -> In 95%N f) ->
  only_ingested w (snd (for_each names process_file w)) /\
  (pending w = [] -> pending (snd (for_each names process_file w)) = []).
Proof.
  induction names as [|f names IH]; intros w Hu.
  - split; [apply only_ingested_refl|auto].
  - rewrite for_each_process_cons.
    destruct (process_file_only_ingested f w (Hu f (or_introl eq_refl)))
      as [Hk Hp].
    destruct (IH (snd (process_file f w))
                (fun g Hg => Hu g (or_intror Hg))) as [Hk' Hp'].
    split; [exact (only_ingested_trans _ _ _ Hk Hk')|auto].
Qed.

Lemma candidates_underscore w f : In f (candidates w) -> In 95%N f.
Proof.
  unfold candidates. intros Hin. apply filter_In in Hin.
  destruct Hin as [_ Hc]. now apply contains_char in Hc.
Qed.

(** [main] in terms of the loop. *)
Lemma main_unfold w :
  main w =
  match candidates w with
  | [] => (Ok tt, record (Print NoFilesFound) w)
  | _ :: _ =>
      (Ok tt,
       record (Print Done)
         (snd (for_each (candidates w) process_file
                 (record (Print (FoundFiles (length (candidates w)))) w))))
  end.
Proof.
  unfold main, candidates. rewrite run_bind. cbn [listdir].
  destruct (filter (contains UNDERSCORE) (map fst (files w))) as [|f fs] eqn:E;
    [reflexivity|].
  rewrite run_print, run_bind.
  pose proof (for_each_process_returns (f :: fs)
                (record (Print (FoundFiles (length (f :: fs)))) w)) as Hr.
  destruct (for_each (f :: fs) process_file _) as [r w1].
  simpl in Hr. subst r. reflexivity.
Qed.
End Run.



(** X18: [main] creates no file and changes none: every file in the
    folder afterwards was there before with the same content, and a
    file whose name has no underscore is still there.  When no name in
    the folder has an underscore, [main] only prints that it found no
    file. *)
Theorem main_folder :
  forall (U : Unicode) (D : Database) (w : world),
    (forall f, In f (files (snd (main w))) -> In f (files w)) /\
    (forall name, ~ In 95%N name ->
       lookup name (files (snd (main w))) = lookup name (files w)) /\
    ((forall name, In name (map fst (files w)) -> ~ In 95%N name) ->
     main w = (Ok tt, record (Print NoFilesFound) w)).
Proof.
  intros U D w. rewrite main_unfold.
  destruct (candidates w) as [|f fs] eqn:E.
  - repeat split; auto.
  - rewrite <- E.
    destruct (for_each_only_ingested (candidates w)
                (record (Print (FoundFiles (length (candidates w)))) w)
                (candidates_underscore w)) as [[_ [Hf Hl]] _].
    split; [|split].
    + intros g Hg. exact (Hf g Hg).
    + intros name Hn. exact (Hl name Hn).
    + intros Hno. exfalso.
      assert (Hin : In f (candidates w)) by (rewrite E; now left).
      pose proof (candidates_underscore w f Hin) as Hu.
      unfold candidates in Hin. apply filter_In in Hin.
      exact (Hno f (proj1 Hin) Hu).
Qed.

Lemma main_folder_witness :
  ~ In 95%N (py "notes.txt") /\
  lookup (py "notes.txt")
    (files (snd (@main basic_latin refuses_spinoza
                   (empty_world sample_folder))))
  = lookup (py "notes.txt") (files (empty_world sample_folder)).
Proof.
  assert (Hn : ~ In 95%N (py "notes.txt"))
    by (vm_compute; intuition discriminate).
  split; [exact Hn|].
  exact (proj1 (proj2 (main_folder basic_latin refuses_spinoza
                         (empty_world sample_folder))) (py "notes.txt") Hn).
Defined.

(** ** Each file once *)




Section Once.
Context `{Unicode} `{Database}.



End Once.


(** ** The filter of [main] and the classifier *)

(** X20: [parse_filename] succeeds exactly on the filenames whose
    name without extension has an underscore, and every such filename
    passes the test ['_' in f] of [main]: the filter of [main] drops no
    file that could have been ingested. *)
Theorem parse_filename_succeeds_iff :
  forall (U : Unicode) (filename : str),
    ((exists t, parse_filename filename = Ok t) <->
     In 95%N (remove_extension filename)) /\
    ((exists t, parse_filename filename = Ok t) ->
     contains UNDERSCORE filename = true).
Proof.
  intros U filename.
  assert (Hiff : (exists t, parse_filename filename = Ok t) <->
                 In 95%N (remove_extension filename)).
  { split.
    - intros [t Ht]. exact (proj1 (parse_filename_ok filename t Ht)).
    - intros Hin. unfold parse_filename. rewrite rsplit1_dot_item0.
      apply contains_char in Hin. change [95%N] with UNDERSCORE in Hin.
      rewrite Hin. eexists. reflexivity. }
  split; [exact Hiff|].
  intros Hok. apply Hiff in Hok. change UNDERSCORE with [95%N].
  apply contains_char.
  destruct (remove_extension_prefix filename) as [ext Hext].
  rewrite Hext. apply in_or_app. now left.
Qed.

Lemma parse_filename_succeeds_iff_witness :
  (exists t, @parse_filename basic_latin (py "kant_notes_2.txt") = Ok t) /\
  contains UNDERSCORE (py "kant_notes_2.txt") = true.
Proof.
  assert (Hok : exists t,
             @parse_filename basic_latin (py "kant_notes_2.txt") = Ok t)
    by (exists (py "kant"); vm_compute; reflexivity).
  split; [exact Hok|].
  exact (proj2 (parse_filename_succeeds_iff basic_latin
                  (py "kant_notes_2.txt")) Hok).
Defined.

(** ** What a commit holds *)


Section Derived.
Context `{Unicode} `{Database}.






End Derived.



